(** * Peer tracker and chat client: a shallow embedding

    The tracker of [peer_tracker.py] and the client of [chat_client.py],
    written as pure functions over explicit state.

    - The tracker's [self.peers] dictionary is a [gmap string PeerRecord];
      the client's [self.peer_info] and [self.peer_connections] are gmaps
      keyed by peer id as well.
    - [time.time()] is read by the caller and passed in as [now], an integer
      number of clock ticks.
    - A received payload is a [string] of ASCII characters (the protocol is
      ASCII); [str.split], [str.upper] and [int] are written out for that
      alphabet.
    - A raised Python exception is the [Raise] branch of [result]; a
      [try ... except Exception] block is [try_except].
    - Sockets, threads and the lock are not part of the state: every
      function below is the body of one critical section or of one
      connection handler. *)

From Stdlib Require Import ZArith Ascii String List Bool Lia.
From stdpp Require Import gmap strings list fin_maps sorting.

Local Open Scope Z_scope.
Local Open Scope string_scope.

(** ** Exceptions *)

Inductive exn :=
| ValueError (literal : string)      (* int() on a token that is no integer *)
| OSError (what : string)            (* socket.error on connect / sendall / recv *)
| JSONDecodeError                    (* json.loads on a malformed document *)
| AttributeError.                    (* .get on a decoded value that is no dict *)

Inductive result (A : Type) :=
| Ok (a : A)
| Raise (e : exn).
Arguments Ok {A} a.
Arguments Raise {A} e.

#[global] Instance result_bind : MBind result := λ A B k r,
  match r with
  | Ok a => k a
  | Raise e => Raise e
  end.

(** [try: body except Exception as e: handler(e)] *)
Definition try_except {A : Type} (body : result A) (handler : exn → A) : A :=
  match body with
  | Ok a => a
  | Raise e => handler e
  end.

(** ** Text of a command line *)

Module Text.

(** The ASCII characters for which [str.isspace] holds: TAB, LF, VT, FF,
    CR, the four separators FS..US, and the space. *)
Definition is_space (a : ascii) : bool :=
  let n := nat_of_ascii a in
  ((9 <=? n) && (n <=? 13) || (28 <=? n) && (n <=? 31) || (n =? 32))%nat.

(** [s.split()]: the maximal runs of non-space characters, in order.
    [cur] holds the run being read, reversed. *)
Fixpoint split_aux (cur : list ascii) (s : string) : list string :=
  match s with
  | EmptyString =>
      match cur with
      | [] => []
      | _ => [string_of_list_ascii (rev cur)]
      end
  | String a s' =>
      if is_space a then
        match cur with
        | [] => split_aux [] s'
        | _ => string_of_list_ascii (rev cur) :: split_aux [] s'
        end
      else split_aux (a :: cur) s'
  end.

(** [data.strip().split()]: stripping first changes nothing for a
    split on whitespace. *)
Definition split (s : string) : list string := split_aux [] s.

Definition upper_ascii (a : ascii) : ascii :=
  let n := nat_of_ascii a in
  if ((97 <=? n) && (n <=? 122))%nat then ascii_of_nat (n - 32) else a.

Fixpoint upper (s : string) : string :=
  match s with
  | EmptyString => EmptyString
  | String a s' => String (upper_ascii a) (upper s')
  end.

Definition digit_of (a : ascii) : option Z :=
  let n := nat_of_ascii a in
  if ((48 <=? n) && (n <=? 57))%nat then Some (Z.of_nat (n - 48)) else None.

(** Decimal digits, single underscores allowed between two digits. *)
Fixpoint int_digits (acc : Z) (after_digit : bool) (s : string) : option Z :=
  match s with
  | EmptyString => if after_digit then Some acc else None
  | String a s' =>
      match digit_of a with
      | Some d => int_digits (10 * acc + d) true s'
      | None =>
          if Ascii.eqb a "_"%char && after_digit
          then int_digits acc false s'
          else None
      end
  end.

(** [int(tok)] on a token without whitespace: an optional sign and
    decimal digits; [ValueError] otherwise. *)
Definition int (tok : string) : result Z :=
  let parsed :=
    match tok with
    | String "+"%char s' => int_digits 0 false s'
    | String "-"%char s' => Z.opp <$> int_digits 0 false s'
    | _ => int_digits 0 false tok
    end in
  match parsed with
  | Some n => Ok n
  | None => Raise (ValueError tok)
  end.

End Text.

(** [str(e)] for the exceptions above. *)
Definition exn_str (e : exn) : string :=
  match e with
  | ValueError literal => "invalid literal for int() with base 10: '" ++ literal ++ "'"
  | OSError what => what
  | JSONDecodeError => "Expecting value"
  | AttributeError => "object has no attribute 'get'"
  end.

(** ** The tracker: [peer_tracker.py] *)

(** A value of [self.peers]: [{'ip': ..., 'port': ..., 'last_seen': ...}]. *)
Record PeerRecord := mkPeerRecord {
  ip : string;
  port : Z;
  last_seen : Z
}.

(** One element of the [peers] list of a GET_PEERS reply. *)
Record PeerEntry := mkPeerEntry {
  entry_peer_id : string;
  entry_ip : string;
  entry_port : Z
}.

(** The dictionary handed to [_send_response]; a key the dictionary lacks
    is [None]. *)
Record Response := mkResponse {
  status : string;
  message : option string;
  peers_field : option (list PeerEntry);
  peer_count : option nat
}.

Definition error_response (msg : string) : Response :=
  mkResponse "error" (Some msg) None None.

Record PeerTracker := mkPeerTracker {
  peers : gmap string PeerRecord;
  peer_timeout : Z
}.

Module PeerTracker.

(** [__init__]: no peers, a timeout of five minutes. *)
Definition init : PeerTracker := mkPeerTracker ∅ 300.

Definition set_peers (t : PeerTracker) (m : gmap string PeerRecord) : PeerTracker :=
  mkPeerTracker m (peer_timeout t).

(** [parts[i]] for an index the guards have already checked. *)
Definition part (parts : list string) (i : nat) : string :=
  default "" (parts !! i).

Definition _handle_register (t : PeerTracker) (now : Z) (parts : list string)
  : result (PeerTracker * Response) :=
  if (length parts <? 4)%nat then
    Ok (t, error_response "Invalid format. Use: REGISTER <peer_id> <ip> <port>")
  else
    let peer_id := part parts 1 in
    let peer_ip := part parts 2 in
    peer_port ← Text.int (part parts 3);
    let t' := set_peers t (<[peer_id := mkPeerRecord peer_ip peer_port now]> (peers t)) in
    Ok (t', mkResponse "success" (Some "Peer registered successfully") None
              (Some (size (peers t')))).

Definition _handle_get_peers (t : PeerTracker) (parts : list string)
  : PeerTracker * Response :=
  let peer_list :=
    (λ kv, mkPeerEntry kv.1 (ip kv.2) (port kv.2)) <$> map_to_list (peers t) in
  (t, mkResponse "success" None (Some peer_list) (Some (length peer_list))).

Definition _handle_unregister (t : PeerTracker) (parts : list string)
  : PeerTracker * Response :=
  if (length parts <? 2)%nat then
    (t, error_response "Invalid format. Use: UNREGISTER <peer_id>")
  else
    let peer_id := part parts 1 in
    match peers t !! peer_id with
    | Some _ =>
        (set_peers t (delete peer_id (peers t)),
         mkResponse "success" (Some "Peer unregistered successfully") None None)
    | None => (t, error_response "Peer not found")
    end.

Definition _handle_heartbeat (t : PeerTracker) (now : Z) (parts : list string)
  : PeerTracker * Response :=
  if (length parts <? 2)%nat then
    (t, error_response "Invalid format. Use: HEARTBEAT <peer_id>")
  else
    let peer_id := part parts 1 in
    match peers t !! peer_id with
    | Some r =>
        (set_peers t (<[peer_id := mkPeerRecord (ip r) (port r) now]> (peers t)),
         mkResponse "success" (Some "Heartbeat received") None None)
    | None => (t, error_response "Peer not found")
    end.

(** The dispatch inside the [try] of [_handle_client], for a payload that
    is not empty. *)
Definition dispatch (t : PeerTracker) (now : Z) (data : string)
  : result (PeerTracker * Response) :=
  let parts := Text.split data in
  match parts with
  | [] => Ok (t, error_response "Empty command")
  | p0 :: _ =>
      let command := Text.upper p0 in
      if String.eqb command "REGISTER" then _handle_register t now parts
      else if String.eqb command "GET_PEERS" then Ok (_handle_get_peers t parts)
      else if String.eqb command "UNREGISTER" then Ok (_handle_unregister t parts)
      else if String.eqb command "HEARTBEAT" then Ok (_handle_heartbeat t now parts)
      else Ok (t, error_response "Unknown command")
  end.

(** [_handle_client] on the text one [recv] gave: the new tracker and the
    reply sent, [None] when the handler returns without replying (an
    empty read). An exception raised while handling is answered with
    [str(e)]; the registry is as the handler left it when it raised. *)
Definition _handle_client (t : PeerTracker) (now : Z) (data : string)
  : PeerTracker * option Response :=
  if String.eqb data "" then (t, None)
  else
    try_except
      ('(t', r) ← dispatch t now data; Ok (t', Some r))
      (λ e, (t, Some (error_response (exn_str e)))).

(** The ids [_cleanup_inactive_peers] collects in one pass. *)
Definition inactive_peers (t : PeerTracker) (current_time : Z) : list string :=
  (filter (λ kv, current_time - last_seen kv.2 > peer_timeout t)
          (map_to_list (peers t))).*1.

(** One pass of the loop of [_cleanup_inactive_peers], after the sleep:
    collect the ids to drop, then delete them one by one. *)
Definition _cleanup_inactive_peers (t : PeerTracker) (current_time : Z) : PeerTracker :=
  set_peers t
    (foldl (λ m peer_id, delete peer_id m) (peers t) (inactive_peers t current_time)).

End PeerTracker.

(** ** The client: [chat_client.py] *)

(** A decoded JSON document, as [json.loads] returns it. *)
#[local] Unset Elimination Schemes.
Inductive json :=
| JNull
| JBool (b : bool)
| JNumber (n : Z)
| JString (s : string)
| JArray (items : list json)
| JObject (fields : list (string * json)).
#[local] Set Elimination Schemes.

(** [d.get(key)] on a decoded object: [None], here [JNull], for a key the
    object lacks. *)
Fixpoint dict_get (key : string) (fields : list (string * json)) : json :=
  match fields with
  | [] => JNull
  | (k, v) :: rest => if String.eqb k key then v else dict_get key rest
  end.

(** [v == text] for a decoded value [v] and a string literal. *)
Definition json_eq_str (v : json) (text : string) : bool :=
  match v with
  | JString s => String.eqb s text
  | _ => false
  end.

(** A value of [self.peer_info]: [{'ip': ..., 'port': ...}]. *)
Record PeerInfo := mkPeerInfo {
  info_ip : string;
  info_port : Z
}.

(** A connected socket object; [fd] tells two of them apart. *)
Record Socket := mkSocket { fd : nat }.

(** An element of [self.messages]. *)
Record Message := mkMessage {
  msg_type : string;
  msg_from : json;
  msg_content : json;
  msg_time : Z
}.

(** A call the client made on the network, kept in order in [net_calls]
    (a history of the effects, not a field of the Python object). *)
Inductive NetCall :=
| Connect (target : string) (addr : string * Z) (outcome : result Socket)
| Sendall (target : string) (conn : Socket) (payload : string) (outcome : result unit).

Record ChatClient := mkChatClient {
  peer_id : string;
  listen_port : Z;
  peer_connections : gmap string Socket;
  peer_info : gmap string PeerInfo;
  messages : list Message;
  net_calls : list NetCall
}.

(** What the network answers to the calls made on behalf of the peer
    [target]: [sock.connect((ip, port))] and [conn.sendall(payload)]. *)
Record Network := mkNetwork {
  net_connect : string → string → Z → result Socket;
  net_sendall : string → Socket → string → result unit
}.

Module ChatClient.

(** [__init__] *)
Definition init (peer_id : string) (listen_port : Z) : ChatClient :=
  mkChatClient peer_id listen_port ∅ ∅ [] [].

Definition set_peer_info (c : ChatClient) (m : gmap string PeerInfo) : ChatClient :=
  mkChatClient (peer_id c) (listen_port c) (peer_connections c) m (messages c) (net_calls c).

Definition set_peer_connections (c : ChatClient) (m : gmap string Socket) : ChatClient :=
  mkChatClient (peer_id c) (listen_port c) m (peer_info c) (messages c) (net_calls c).

Definition append_message (c : ChatClient) (m : Message) : ChatClient :=
  mkChatClient (peer_id c) (listen_port c) (peer_connections c) (peer_info c)
               (messages c ++ [m]) (net_calls c).

Definition record_call (c : ChatClient) (call : NetCall) : ChatClient :=
  mkChatClient (peer_id c) (listen_port c) (peer_connections c) (peer_info c)
               (messages c) (net_calls c ++ [call]).

(** The loop body of [_update_peer_list], on the dictionary itself. *)
Definition store_peer (self_id : string) (info : gmap string PeerInfo) (peer : PeerEntry)
  : gmap string PeerInfo :=
  if String.eqb (entry_peer_id peer) self_id then info
  else <[entry_peer_id peer := mkPeerInfo (entry_ip peer) (entry_port peer)]> info.

(** [_update_peer_list]. [exchange] is what the round trip with the
    tracker gave: the decoded reply, or the exception raised by the
    socket calls or by [json.loads]. *)
Definition _update_peer_list (c : ChatClient) (exchange : result Response) : ChatClient :=
  try_except
    (result ← exchange;
     if String.eqb (status result) "success" then
       let peers := default [] (peers_field result) in
       Ok (set_peer_info c (foldl (store_peer (peer_id c)) (peer_info c) peers))
     else Ok c)
    (λ e, c).

Section Codec.

(** [json.loads] and [json.dumps]. *)
Variable json_loads : string → result json.
Variable json_dumps : json → string.

Definition _process_peer_message (c : ChatClient) (message : string) (now : Z)
  : ChatClient :=
  try_except
    (msg_data ← json_loads message;
     fields ← match msg_data with
              | JObject fields => Ok fields
              | _ => Raise AttributeError
              end;
     let type := dict_get "type" fields in
     let from_peer := dict_get "from" fields in
     let content := dict_get "content" fields in
     if json_eq_str type "direct" then
       Ok (append_message c (mkMessage "direct" from_peer content now))
     else if json_eq_str type "broadcast" then
       Ok (append_message c (mkMessage "broadcast" from_peer content now))
     else Ok c)
    (λ e, c).

Variable net : Network.

(** [_connect_to_peer]: the socket, or [None]; a failed [connect] is
    caught here. *)
Definition _connect_to_peer (c : ChatClient) (target : string)
  : ChatClient * option Socket :=
  match peer_info c !! target with
  | None => (c, None)
  | Some peer =>
      let outcome := net_connect net target (info_ip peer) (info_port peer) in
      let c := record_call c (Connect target (info_ip peer, info_port peer) outcome) in
      match outcome with
      | Ok sock => (set_peer_connections c (<[target := sock]> (peer_connections c)), Some sock)
      | Raise e => (c, None)
      end
  end.

(** [conn.sendall(payload)] in the iteration for [target]; the call is
    recorded, and its exception, if any, is the caller's to catch. *)
Definition sendall (c : ChatClient) (target : string) (conn : Socket) (payload : string)
  : ChatClient * result unit :=
  let outcome := net_sendall net target conn payload in
  (record_call c (Sendall target conn payload outcome), outcome).

(** [send_direct_message]: nothing is sent when no connection can be had;
    a failed [sendall] is caught and reported on the console. *)
Definition send_direct_message (c : ChatClient) (target : string) (message : string)
  : ChatClient :=
  let '(c, conn) :=
    match peer_connections c !! target with
    | Some conn => (c, Some conn)
    | None => _connect_to_peer c target
    end in
  match conn with
  | None => c
  | Some conn =>
      let msg_data :=
        JObject [("type", JString "direct"); ("from", JString (peer_id c));
                 ("content", JString message)] in
      (sendall c target conn (json_dumps msg_data)).1
  end.

(** One iteration of the loop of [broadcast_message]. *)
Definition broadcast_to (msg_json : string) (st : ChatClient * nat) (target : string)
  : ChatClient * nat :=
  let '(c, sent_count) := st in
  let '(c, conn) :=
    match peer_connections c !! target with
    | Some conn => (c, Some conn)
    | None => _connect_to_peer c target
    end in
  match conn with
  | None => (c, sent_count)
  | Some conn =>
      let '(c, outcome) := sendall c target conn msg_json in
      try_except (_ ← outcome; Ok (c, S sent_count)) (λ e, (c, sent_count))
  end.

(** [broadcast_message]: the client afterwards and the [sent_count] it
    prints. *)
Definition broadcast_message (c : ChatClient) (message : string) : ChatClient * nat :=
  let msg_data :=
    JObject [("type", JString "broadcast"); ("from", JString (peer_id c));
             ("content", JString message)] in
  let msg_json := json_dumps msg_data in
  foldl (broadcast_to msg_json) (c, 0%nat) (map_to_list (peer_info c)).*1.

End Codec.

End ChatClient.

(** ** Observations and sample states *)

(** The entries [PeerTracker._handle_get_peers] lists for a tracker. *)
Definition listed (t : PeerTracker) : list PeerEntry :=
  default [] (peers_field (PeerTracker._handle_get_peers t []).2).

(** A registry of two peers, last seen at ticks 0 and 100. *)
Definition two_peers : PeerTracker :=
  mkPeerTracker
    (<["alice" := mkPeerRecord "10.0.0.1" 6001 0]>
       (<["bob" := mkPeerRecord "10.0.0.2" 6002 100]> ∅))
    300.

(** ** Malformed command lines *)

(** The command word of a payload: its first token, upper-cased. *)
Definition command_word (data : string) : option string :=
  Text.upper <$> head (Text.split data).

Definition known_commands : list string :=
  ["REGISTER"; "GET_PEERS"; "UNREGISTER"; "HEARTBEAT"].

(** The payloads [_handle_client] answers with an error whatever the
    registry holds: no token at all, a command with too few arguments, a
    REGISTER whose port token [int] rejects, a command word it does not
    know. *)
Inductive Malformed (data : string) : Prop :=
| malformed_blank :
    Text.split data = [] → Malformed data
| malformed_register_short :
    command_word data = Some "REGISTER" →
    (length (Text.split data) < 4)%nat → Malformed data
| malformed_register_port (e : exn) :
    command_word data = Some "REGISTER" →
    Text.int (PeerTracker.part (Text.split data) 3) = Raise e → Malformed data
| malformed_unregister_short :
    command_word data = Some "UNREGISTER" →
    (length (Text.split data) < 2)%nat → Malformed data
| malformed_heartbeat_short :
    command_word data = Some "HEARTBEAT" →
    (length (Text.split data) < 2)%nat → Malformed data
| malformed_unknown (word : string) :
    command_word data = Some word → word ∉ known_commands → Malformed data.

(** ** Runs of the tracker *)

(** What changes the registry: a connection delivering [data], or a tick
    of the cleanup loop. Each comes with the clock reading it sees. *)
Inductive Event :=
| Request (data : string)
| SweepTick.

Definition step (t : PeerTracker) (stamped : Z * Event) : PeerTracker :=
  match stamped.2 with
  | Request data => (PeerTracker._handle_client t stamped.1 data).1
  | SweepTick => PeerTracker._cleanup_inactive_peers t stamped.1
  end.

Definition run (t : PeerTracker) (events : list (Z * Event)) : PeerTracker :=
  foldl step t events.

(** Every record was last seen at or before [now]. *)
Definition seen_by (now : Z) (m : gmap string PeerRecord) : Prop :=
  ∀ k r, m !! k = Some r → (last_seen r ≤ now)%Z.

(** Every record of [m'] is a record of [m] or carries the stamp [now]. *)
Definition kept_or_stamped (now : Z) (m m' : gmap string PeerRecord) : Prop :=
  ∀ k r', m' !! k = Some r' → m !! k = Some r' ∨ last_seen r' = now.

(** ** Client states that can arise *)

(** The states a client goes through: as created, then after any refresh,
    inbound payload, direct message or broadcast. *)
Inductive Reachable (json_loads : string → result json) (json_dumps : json → string)
    (net : Network) : ChatClient → Prop :=
| reach_init (peer_id : string) (listen_port : Z) :
    Reachable json_loads json_dumps net (ChatClient.init peer_id listen_port)
| reach_refresh (c : ChatClient) (exchange : result Response) :
    Reachable json_loads json_dumps net c →
    Reachable json_loads json_dumps net (ChatClient._update_peer_list c exchange)
| reach_inbound (c : ChatClient) (message : string) (now : Z) :
    Reachable json_loads json_dumps net c →
    Reachable json_loads json_dumps net
      (ChatClient._process_peer_message json_loads c message now)
| reach_direct (c : ChatClient) (target message : string) :
    Reachable json_loads json_dumps net c →
    Reachable json_loads json_dumps net
      (ChatClient.send_direct_message json_dumps net c target message)
| reach_broadcast (c : ChatClient) (message : string) :
    Reachable json_loads json_dumps net c →
    Reachable json_loads json_dumps net
      (ChatClient.broadcast_message json_dumps net c message).1.

(** ** Outcomes of a broadcast *)

Definition is_ok {A : Type} (r : result A) : bool :=
  match r with
  | Ok _ => true
  | Raise _ => false
  end.

(** Whether the payload gets through to [target] from the client state
    [c]: over the cached connection when there is one, else over a
    connection that has to be opened first. *)
Definition reaches (net : Network) (c : ChatClient) (payload : string) (target : string)
  : bool :=
  match peer_connections c !! target with
  | Some conn => is_ok (net_sendall net target conn payload)
  | None =>
      match peer_info c !! target with
      | None => false
      | Some peer =>
          match net_connect net target (info_ip peer) (info_port peer) with
          | Ok sock => is_ok (net_sendall net target sock payload)
          | Raise _ => false
          end
      end
  end.

(** K: the cached peers to which connecting or sending fails. *)
Definition failures (net : Network) (c : ChatClient) (payload : string) : nat :=
  length (List.filter (λ target, negb (reaches net c payload target))
                      (map_to_list (peer_info c)).*1).

Definition call_target (call : NetCall) : string :=
  match call with
  | Connect target _ _ => target
  | Sendall target _ _ _ => target
  end.

(** The envelope [broadcast_message] builds. *)
Definition broadcast_envelope (c : ChatClient) (message : string) : json :=
  JObject [("type", JString "broadcast"); ("from", JString (peer_id c));
           ("content", JString message)].

(** ** Inbound payloads that are not chat messages *)

(** What [json.loads] gave is no chat message: it raised, or the document
    is no object, or its [type] is neither [direct] nor [broadcast]. *)
Inductive Unrecognised : result json → Prop :=
| not_json (e : exn) : Unrecognised (Raise e)
| not_an_object (v : json) :
    (∀ fields, v ≠ JObject fields) → Unrecognised (Ok v)
| other_type (fields : list (string * json)) :
    json_eq_str (dict_get "type" fields) "direct" = false →
    json_eq_str (dict_get "type" fields) "broadcast" = false →
    Unrecognised (Ok (JObject fields)).

(** ** Sample client, network and decoder *)

(** alice, knowing bob, carol and dave, with a connection to carol open. *)
Definition alice : ChatClient :=
  mkChatClient "alice" 6001
    (<["carol" := mkSocket 7]> ∅)
    (<["bob" := mkPeerInfo "10.0.0.2" 6002]>
       (<["carol" := mkPeerInfo "10.0.0.3" 6003]>
          (<["dave" := mkPeerInfo "10.0.0.4" 6004]> ∅)))
    [] [].

(** bob accepts connections, dave refuses them; sending to carol fails. *)
Definition flaky : Network :=
  mkNetwork
    (λ target _ _,
       if String.eqb target "dave" then Raise (OSError "Connection refused")
       else Ok (mkSocket 9))
    (λ target _ _,
       if String.eqb target "carol" then Raise (OSError "Broken pipe") else Ok ()).

(** A decoder that knows three documents, named here by a word each. *)
Definition table_loads (text : string) : result json :=
  if String.eqb text "ping" then
    Ok (JObject [("type", JString "ping"); ("from", JString "bob")])
  else if String.eqb text "hello" then
    Ok (JObject [("type", JString "direct"); ("from", JString "bob");
                 ("content", JString "hi")])
  else if String.eqb text "list" then Ok (JArray [JNumber 1])
  else Raise JSONDecodeError.

(** A serialiser that keeps the content only. *)
Definition content_dumps (v : json) : string :=
  match v with
  | JObject fields =>
      match dict_get "content" fields with
      | JString s => s
      | _ => ""
      end
  | _ => ""
  end.

(** ** More of Python's text operations *)

Module Str.

Definition not_space (a : ascii) : bool := negb (Text.is_space a).

(** No character of [s] is a space for [str.isspace]. *)
Fixpoint no_space (s : string) : bool :=
  match s with
  | EmptyString => true
  | String a s' => negb (Text.is_space a) && no_space s'
  end.

(** Every character of [s] is a space ([s] is empty or blank). *)
Fixpoint all_space (s : string) : bool :=
  match s with
  | EmptyString => true
  | String a s' => Text.is_space a && all_space s'
  end.

(** A word: not empty, no whitespace in it. *)
Definition is_word (s : string) : bool :=
  negb (String.eqb s "") && no_space s.

(** [s.lstrip()], [s.rstrip()] and [s.strip()]. *)
Fixpoint lstrip (s : string) : string :=
  match s with
  | EmptyString => EmptyString
  | String a s' => if Text.is_space a then lstrip s' else s
  end.

Fixpoint rstrip (s : string) : string :=
  match s with
  | EmptyString => EmptyString
  | String a s' =>
      let r := rstrip s' in
      if Text.is_space a && String.eqb r "" then EmptyString else String a r
  end.

Definition strip (s : string) : string := rstrip (lstrip s).

(** [s.startswith(p)] *)
Definition startswith (s p : string) : bool := String.prefix p s.

(** [s[n:]] *)
Fixpoint slice_from (n : nat) (s : string) : string :=
  match n, s with
  | O, _ => s
  | S n', String _ s' => slice_from n' s'
  | S _, EmptyString => EmptyString
  end.

(** [s.split(None, maxsplit)]: at most [maxsplit] words are cut off the
    front; what is left, without its leading whitespace, comes last when
    it is not empty. *)
Fixpoint split_max_aux (maxsplit : nat) (cur : list ascii) (s : string) : list string :=
  match cur, maxsplit with
  | [], O => let r := lstrip s in if String.eqb r "" then [] else [r]
  | _, _ =>
      match s with
      | EmptyString =>
          match cur with
          | [] => []
          | _ => [string_of_list_ascii (rev cur)]
          end
      | String a s' =>
          if Text.is_space a then
            match cur with
            | [] => split_max_aux maxsplit [] s'
            | _ => string_of_list_ascii (rev cur) :: split_max_aux (pred maxsplit) [] s'
            end
          else split_max_aux maxsplit (a :: cur) s'
      end
  end.

Definition split_max (maxsplit : nat) (s : string) : list string :=
  split_max_aux maxsplit [] s.

Definition digit_char (d : Z) : ascii := ascii_of_nat (48 + Z.to_nat d).

(** The decimal digits of [n >= 0] in front of [acc]; [fuel] bounds the
    number of digits. *)
Fixpoint str_digits (fuel : nat) (n : Z) (acc : string) : string :=
  match fuel with
  | O => acc
  | S fuel' =>
      let acc' := String (digit_char (n mod 10)) acc in
      if (n <? 10)%Z then acc' else str_digits fuel' (n / 10) acc'
  end.

(** [str(n)] for an int, which is also what ["{}".format(n)] gives. *)
Definition str (n : Z) : string :=
  if (n <? 0)%Z then String "-"%char (str_digits (S (Z.to_nat (Z.log2 (- n)))) (- n) "")
  else str_digits (S (Z.to_nat (Z.log2 n))) n "".

(** The first character of [s] is a decimal digit. *)
Definition starts_with_digit (s : string) : bool :=
  match s with
  | String c _ => match Text.digit_of c with Some _ => true | None => false end
  | EmptyString => false
  end.

(** [" ".join(words)] *)
Fixpoint join (words : list string) : string :=
  match words with
  | [] => ""
  | [w] => w
  | w :: rest => w ++ " " ++ join rest
  end.

End Str.

(** ** What the client sends to the tracker *)

Module Wire.

(** The command of [_register_with_tracker]; [local_ip] is the address
    the host lookup gave. *)
Definition register_command (c : ChatClient) (local_ip : string) : string :=
  "REGISTER " ++ peer_id c ++ " " ++ local_ip ++ " " ++ Str.str (listen_port c).

(** The command of [_unregister_from_tracker]. *)
Definition unregister_command (c : ChatClient) : string :=
  "UNREGISTER " ++ peer_id c.

(** The command of [_send_heartbeat]. *)
Definition heartbeat_command (c : ChatClient) : string :=
  "HEARTBEAT " ++ peer_id c.

(** The command of [_update_peer_list]. *)
Definition get_peers_command : string := "GET_PEERS".

(** [_register_with_tracker]. [roundtrip] sends a command to the tracker
    and gives the decoded reply, or the exception of the socket calls or
    of [json.loads]. *)
Definition _register_with_tracker (c : ChatClient) (local_ip : string)
    (roundtrip : string → result Response) : bool :=
  try_except
    (result ← roundtrip (register_command c local_ip);
     Ok (String.eqb (status result) "success"))
    (λ e, false).

(** A tracker in state [t] at time [now], seen from the client's end of
    the socket: the reply to a command, or the end of the stream when the
    tracker closes without replying. *)
Definition served_by (t : PeerTracker) (now : Z) (command : string) : result Response :=
  match (PeerTracker._handle_client t now command).2 with
  | Some reply => Ok reply
  | None => Raise JSONDecodeError
  end.

End Wire.

(** ** Inbound connections *)

(** What one [conn.recv] of [_handle_peer_connection] gives: a payload
    (with the clock reading at which it is processed), the end of the
    stream, or an exception (of [recv] or of the decoding). *)
Inductive Recv :=
| RecvData (message : string) (now : Z)
| RecvClosed
| RecvError (e : exn).

Section Inbound.

Variable json_loads : string → result json.

(** [_handle_peer_connection]: process payloads until the stream ends,
    an exception is raised, or the client stops (no reads left). *)
Fixpoint _handle_peer_connection (c : ChatClient) (reads : list Recv) : ChatClient :=
  match reads with
  | [] => c
  | RecvData message now :: rest =>
      _handle_peer_connection (ChatClient._process_peer_message json_loads c message now) rest
  | RecvClosed :: _ => c
  | RecvError _ :: _ => c
  end.

End Inbound.

(** The payloads processed: those read before the stream ends or fails. *)
Fixpoint processed (reads : list Recv) : list (string * Z) :=
  match reads with
  | RecvData message now :: rest => (message, now) :: processed rest
  | _ => []
  end.

(** ** The command line of the client *)

(** What one line typed at the prompt of [_run_cli] leads to. *)
Inductive CliAction :=
| CliSkip
| CliMsg (target message : string)
| CliMsgUsage
| CliBroadcast (message : string)
| CliBroadcastUsage
| CliPeers
| CliRefresh
| CliHistory
| CliQuit
| CliUnknown.

(** The branch [_run_cli] takes for a line. *)
Definition cli_action (line : string) : CliAction :=
  let command := Str.strip line in
  if String.eqb command "" then CliSkip
  else if Str.startswith command "/msg " then
    let parts := Str.split_max 2 command in
    if (3 <=? length parts)%nat
    then CliMsg (PeerTracker.part parts 1) (PeerTracker.part parts 2)
    else CliMsgUsage
  else if Str.startswith command "/broadcast " then
    let message := Str.strip (Str.slice_from 11 command) in
    if String.eqb message "" then CliBroadcastUsage else CliBroadcast message
  else if String.eqb command "/peers" then CliPeers
  else if String.eqb command "/refresh" then CliRefresh
  else if String.eqb command "/history" then CliHistory
  else if String.eqb command "/quit" then CliQuit
  else CliUnknown.

(** ** Envelopes on the wire *)

(** The envelope [send_direct_message] builds. *)
Definition direct_envelope (c : ChatClient) (message : string) : json :=
  JObject [("type", JString "direct"); ("from", JString (peer_id c));
           ("content", JString message)].

(** The call, if it sends anything, sends [payload]. *)
Definition sends_only (payload : string) (call : NetCall) : Prop :=
  match call with
  | Sendall _ _ p _ => p = payload
  | Connect _ _ _ => True
  end.

(** A message of the history is of one of the two kinds of chat message. *)
Definition chat_message (m : Message) : Prop :=
  msg_type m = "direct" ∨ msg_type m = "broadcast".

(** A decoder that reads what [content_dumps] wrote as a direct message
    from alice. *)
Definition alice_direct_loads (text : string) : result json :=
  Ok (JObject [("type", JString "direct"); ("from", JString "alice");
               ("content", JString text)]).

(** The same for a broadcast from alice. *)
Definition alice_broadcast_loads (text : string) : result json :=
  Ok (JObject [("type", JString "broadcast"); ("from", JString "alice");
               ("content", JString text)]).

(** * Properties *)

(** ** Text *)

Example split_register :
  Text.split "  register alice  10.0.0.1 6001 " = ["register"; "alice"; "10.0.0.1"; "6001"].
Proof. reflexivity. Qed.

Example upper_register : Text.upper "Get_Peers" = "GET_PEERS".
Proof. reflexivity. Qed.

Example int_ok : Text.int "6_001" = Ok 6001 ∧ Text.int "-12" = Ok (-12) ∧ Text.int "+7" = Ok 7.
Proof. repeat split. Qed.

Example int_bad :
  Text.int "60o1" = Raise (ValueError "60o1") ∧ Text.int "" = Raise (ValueError "")
  ∧ Text.int "1__0" = Raise (ValueError "1__0") ∧ Text.int "-" = Raise (ValueError "-").
Proof. repeat split. Qed.

(** ** Registry lemmas *)

Section Registry.

Import PeerTracker.

Lemma foldl_delete_lookup {A : Type} (ids : list string) (m : gmap string A) (k : string) :
  foldl (λ m peer_id, delete peer_id m) m ids !! k
  = if decide (k ∈ ids) then None else m !! k.
Proof.
  revert m. induction ids as [|i ids IH]; intros m; cbn [foldl].
  - destruct (decide (k ∈ [])) as [Hin|_]; [by apply elem_of_nil in Hin | done].
  - rewrite IH.
    destruct (decide (k ∈ ids)) as [Hin|Hnin], (decide (k ∈ i :: ids)) as [Hin'|Hnin'];
      try done.
    + exfalso. apply Hnin'. by right.
    + apply elem_of_cons in Hin' as [->|Hin']; [apply lookup_delete_eq | done].
    + apply lookup_delete_ne. intros ->. apply Hnin'. by left.
Qed.

Lemma elem_of_inactive_peers (t : PeerTracker) (now : Z) (k : string) :
  k ∈ inactive_peers t now
  ↔ ∃ r, peers t !! k = Some r ∧ now - last_seen r > peer_timeout t.
Proof.
  unfold inactive_peers. rewrite list_elem_of_fmap. split.
  - intros [[k' r] [-> Hin]]. apply list_elem_of_filter in Hin as [Hage Hin].
    apply elem_of_map_to_list in Hin. eauto.
  - intros (r & Hr & Hage). exists (k, r). split; [done|].
    apply list_elem_of_filter. split; [done|]. by apply elem_of_map_to_list.
Qed.

Lemma sweep_lookup (t : PeerTracker) (now : Z) (k : string) (r : PeerRecord) :
  peers (_cleanup_inactive_peers t now) !! k = Some r
  ↔ peers t !! k = Some r ∧ (now - last_seen r ≤ peer_timeout t)%Z.
Proof.
  unfold _cleanup_inactive_peers; simpl. rewrite foldl_delete_lookup.
  destruct (decide (k ∈ inactive_peers t now)) as [Hin|Hnin].
  - apply elem_of_inactive_peers in Hin as (r' & Hr' & Hage).
    split; [done|]. intros [Hr Hle]. rewrite Hr in Hr'. injection Hr' as ->. lia.
  - split.
    + intros Hr. split; [done|].
      destruct (decide (now - last_seen r ≤ peer_timeout t)%Z) as [|Hgt]; [done|].
      exfalso. apply Hnin, elem_of_inactive_peers. exists r. split; [done | lia].
    + by intros [Hr _].
Qed.

Lemma elem_of_listed (t : PeerTracker) (e : PeerEntry) :
  e ∈ listed t
  ↔ ∃ r, peers t !! entry_peer_id e = Some r ∧ entry_ip e = ip r ∧ entry_port e = port r.
Proof.
  unfold listed; simpl. rewrite list_elem_of_fmap. split.
  - intros [[k r] [-> Hin]]. apply elem_of_map_to_list in Hin. simpl. eauto.
  - intros (r & Hr & Hip & Hport). exists (entry_peer_id e, r). split.
    + destruct e; simpl in *. by subst.
    + by apply elem_of_map_to_list.
Qed.

Lemma listed_ids (t : PeerTracker) :
  entry_peer_id <$> listed t = (map_to_list (peers t)).*1.
Proof.
  unfold listed; simpl. rewrite <- list_fmap_compose. by apply list_fmap_ext.
Qed.

Lemma NoDup_listed_ids (t : PeerTracker) : NoDup (entry_peer_id <$> listed t).
Proof. rewrite listed_ids. apply NoDup_fst_map_to_list. Qed.

Lemma elem_of_listed_ids (t : PeerTracker) (k : string) :
  k ∈ entry_peer_id <$> listed t ↔ is_Some (peers t !! k).
Proof.
  rewrite listed_ids, list_elem_of_fmap. split.
  - intros [[k' r] [-> Hin]]. apply elem_of_map_to_list in Hin. eauto.
  - intros [r Hr]. exists (k, r). split; [done|]. by apply elem_of_map_to_list.
Qed.

Lemma length_listed (t : PeerTracker) : length (listed t) = size (peers t).
Proof. unfold listed; simpl. by rewrite length_fmap, length_map_to_list. Qed.

End Registry.

(** ** The tracker's operations *)

Section Tracker.

Import PeerTracker.

Example init_timeout : peer_timeout init = 300.
Proof. reflexivity. Qed.

Lemma sweep_creates_nothing (t : PeerTracker) (now : Z) (k : string) :
  peers t !! k = None → peers (_cleanup_inactive_peers t now) !! k = None.
Proof.
  intros Hk. destruct (peers (_cleanup_inactive_peers t now) !! k) as [r|] eqn:E; [|done].
  apply sweep_lookup in E as [E _]. congruence.
Qed.

Lemma sweep_timeout (t : PeerTracker) (now : Z) :
  peer_timeout (_cleanup_inactive_peers t now) = peer_timeout t.
Proof. reflexivity. Qed.

(** C1. One sweep tick at time [now] removes exactly the records whose age
    [now - last_seen] is strictly greater than the tracker's timeout (300
    for a tracker as [init] makes it): such a record is gone from the
    registry and from the GET_PEERS listing, and a record whose age is at
    most the timeout is still there, unchanged. *)
Theorem sweep_evicts_exactly_the_expired
  (t : PeerTracker) (now : Z) (k : string) (r : PeerRecord) :
  peers t !! k = Some r →
  (peers (_cleanup_inactive_peers t now) !! k = None ↔ (now - last_seen r > peer_timeout t)%Z)
  ∧ (peers (_cleanup_inactive_peers t now) !! k = Some r ↔ (now - last_seen r ≤ peer_timeout t)%Z)
  ∧ (k ∈ entry_peer_id <$> listed (_cleanup_inactive_peers t now) ↔ (now - last_seen r ≤ peer_timeout t)%Z)
  ∧ (mkPeerEntry k (ip r) (port r) ∈ listed (_cleanup_inactive_peers t now)
     ↔ (now - last_seen r ≤ peer_timeout t)%Z).
Proof.
  intros Hr.
  assert (Hkeep : peers (_cleanup_inactive_peers t now) !! k = Some r
                  ↔ (now - last_seen r ≤ peer_timeout t)%Z).
  { rewrite sweep_lookup. tauto. }
  assert (Hsome : is_Some (peers (_cleanup_inactive_peers t now) !! k)
                  ↔ (now - last_seen r ≤ peer_timeout t)%Z).
  { rewrite <- Hkeep. split; [|by eauto]. intros [r' Hr'].
    pose proof Hr' as Hr''. apply sweep_lookup in Hr'' as [Hr'' _]. congruence. }
  split; [|split; [done|split]].
  - rewrite eq_None_not_Some, Hsome. lia.
  - by rewrite elem_of_listed_ids.
  - rewrite elem_of_listed; cbn [entry_peer_id entry_ip entry_port].
    rewrite <- Hkeep. split.
    + intros (r' & Hr' & _ & _). pose proof Hr' as Hr''.
      apply sweep_lookup in Hr'' as [Hr'' _]. congruence.
    + intros Hk. by exists r.
Qed.

Lemma sweep_evicts_exactly_the_expired_witness :
  peers (_cleanup_inactive_peers two_peers 350) !! "alice" = None
  ∧ peers (_cleanup_inactive_peers two_peers 350) !! "bob" = Some (mkPeerRecord "10.0.0.2" 6002 100).
Proof.
  split.
  - apply (sweep_evicts_exactly_the_expired two_peers 350 "alice"
             (mkPeerRecord "10.0.0.1" 6001 0)); [reflexivity | simpl; lia].
  - apply (sweep_evicts_exactly_the_expired two_peers 350 "bob"
             (mkPeerRecord "10.0.0.2" 6002 100)); [reflexivity | simpl; lia].
Defined.

(** The boundary: an age equal to the timeout is not yet expired. *)
Example sweep_keeps_age_equal_to_timeout :
  peers (_cleanup_inactive_peers two_peers 300) !! "alice" = Some (mkPeerRecord "10.0.0.1" 6001 0)
  ∧ peers (_cleanup_inactive_peers two_peers 301) !! "alice" = None.
Proof. split; vm_compute; reflexivity. Qed.

(** C2. When the registry already holds a record for [pid], a further
    REGISTER for [pid] succeeds (there is no conflict reply), replaces the
    record by the new ip and port stamped [now], touches no other record,
    and reports a [peer_count] equal to the size of the registry before the
    call, which is also its size after it. *)
Theorem register_again_overwrites
  (t : PeerTracker) (now : Z) (cmd pid ip' tok : string) (rest : list string) (port' : Z) :
  is_Some (peers t !! pid) →
  Text.int tok = Ok port' →
  ∃ t' reply,
    _handle_register t now (cmd :: pid :: ip' :: tok :: rest) = Ok (t', reply)
    ∧ peers t' !! pid = Some (mkPeerRecord ip' port' now)
    ∧ (∀ k, k ≠ pid → peers t' !! k = peers t !! k)
    ∧ status reply = "success"
    ∧ peer_count reply = Some (size (peers t))
    ∧ size (peers t') = size (peers t).
Proof.
  intros [old Hold] Hint. unfold _handle_register, part. cbn [length Nat.ltb Nat.leb].
  cbn [lookup list_lookup default]. simpl. rewrite Hint. simpl.
  eexists _, _. split; [reflexivity|]. simpl.
  assert (Hsize : size (<[pid := mkPeerRecord ip' port' now]> (peers t)) = size (peers t))
    by (by eapply map_size_insert_Some).
  repeat split.
  - apply lookup_insert_eq.
  - intros k Hk. by rewrite lookup_insert_ne.
  - by rewrite Hsize.
  - done.
Qed.

Lemma register_again_overwrites_witness :
  ∃ t' reply,
    _handle_register two_peers 500 ["REGISTER"; "bob"; "10.9.9.9"; "7000"] = Ok (t', reply)
    ∧ peers t' !! "bob" = Some (mkPeerRecord "10.9.9.9" 7000 500)
    ∧ (∀ k, k ≠ "bob" → peers t' !! k = peers two_peers !! k)
    ∧ status reply = "success"
    ∧ peer_count reply = Some (size (peers two_peers))
    ∧ size (peers t') = size (peers two_peers).
Proof.
  apply (register_again_overwrites two_peers 500 "REGISTER" "bob" "10.9.9.9" "7000" [] 7000).
  - exists (mkPeerRecord "10.0.0.2" 6002 100). reflexivity.
  - reflexivity.
Defined.

(** C3. For a peer id the registry does not hold, HEARTBEAT and UNREGISTER
    each answer the error object [Peer not found] and return the tracker
    as it was: no record is created, none is removed. *)
Theorem absent_peer_is_not_found
  (t : PeerTracker) (now : Z) (cmd pid : string) (rest : list string) :
  peers t !! pid = None →
  _handle_heartbeat t now (cmd :: pid :: rest) = (t, error_response "Peer not found")
  ∧ _handle_unregister t (cmd :: pid :: rest) = (t, error_response "Peer not found").
Proof.
  intros Hnone. unfold _handle_heartbeat, _handle_unregister, part.
  simpl. by rewrite Hnone.
Qed.

Lemma absent_peer_is_not_found_witness :
  _handle_heartbeat two_peers 500 ["HEARTBEAT"; "carol"]
    = (two_peers, error_response "Peer not found")
  ∧ _handle_unregister two_peers ["UNREGISTER"; "carol"]
    = (two_peers, error_response "Peer not found").
Proof.
  apply (absent_peer_is_not_found two_peers 500 "HEARTBEAT" "carol" []). reflexivity.
Defined.

(** The same over a connection: the reply is sent, the handler returns. *)
Example heartbeat_unknown_over_connection :
  _handle_client two_peers 500 "HEARTBEAT carol"
    = (two_peers, Some (error_response "Peer not found"))
  ∧ _handle_client two_peers 500 "unregister carol"
    = (two_peers, Some (error_response "Peer not found")).
Proof. split; reflexivity. Qed.

(** C9. GET_PEERS has no error branch: for every tracker and whatever
    follows the command word, the reply is [status = success] with a list
    [peers] and [peer_count = len(peers)]; the list has one entry per
    registered peer, carrying that peer's id, ip and port, and no entry
    for anything else; the tracker is returned unchanged. *)
Theorem get_peers_lists_registry (t : PeerTracker) (parts : list string) :
  ∃ l,
    _handle_get_peers t parts = (t, mkResponse "success" None (Some l) (Some (length l)))
    ∧ length l = size (peers t)
    ∧ NoDup (entry_peer_id <$> l)
    ∧ (∀ e, e ∈ l ↔ ∃ r, peers t !! entry_peer_id e = Some r
                          ∧ entry_ip e = ip r ∧ entry_port e = port r)
    ∧ (∀ k r, peers t !! k = Some r → mkPeerEntry k (ip r) (port r) ∈ l).
Proof.
  exists (listed t). split; [reflexivity|].
  split; [apply length_listed|]. split; [apply NoDup_listed_ids|].
  split; [apply elem_of_listed|].
  intros k r Hr. apply elem_of_listed. by exists r.
Qed.

Example get_peers_with_surplus_argument :
  PeerTracker._handle_client two_peers 500 "get_peers now"
  = (two_peers,
     Some (mkResponse "success" None
             (Some [mkPeerEntry "alice" "10.0.0.1" 6001; mkPeerEntry "bob" "10.0.0.2" 6002])
             (Some 2%nat)))
  ∨ PeerTracker._handle_client two_peers 500 "get_peers now"
  = (two_peers,
     Some (mkResponse "success" None
             (Some [mkPeerEntry "bob" "10.0.0.2" 6002; mkPeerEntry "alice" "10.0.0.1" 6001])
             (Some 2%nat))).
Proof. vm_compute. tauto. Qed.

End Tracker.

(** ** Malformed requests *)

Section Requests.

Import PeerTracker.

Lemma dispatch_cases (t : PeerTracker) (now : Z) (data : string) :
  dispatch t now data =
    match command_word data with
    | None => Ok (t, error_response "Empty command")
    | Some word =>
        if String.eqb word "REGISTER" then _handle_register t now (Text.split data)
        else if String.eqb word "GET_PEERS" then Ok (_handle_get_peers t (Text.split data))
        else if String.eqb word "UNREGISTER" then Ok (_handle_unregister t (Text.split data))
        else if String.eqb word "HEARTBEAT" then Ok (_handle_heartbeat t now (Text.split data))
        else Ok (t, error_response "Unknown command")
    end.
Proof. unfold dispatch, command_word. by destruct (Text.split data). Qed.

Lemma handle_client_nonempty (t : PeerTracker) (now : Z) (data : string) :
  data ≠ "" →
  _handle_client t now data =
    match dispatch t now data with
    | Ok (t', r) => (t', Some r)
    | Raise e => (t, Some (error_response (exn_str e)))
    end.
Proof.
  intros Hne. unfold _handle_client.
  destruct (String.eqb_spec data "") as [->|_]; [done|].
  by destruct (dispatch t now data) as [[t' r]|e].
Qed.

Lemma command_word_nonempty (data word : string) :
  command_word data = Some word → data ≠ "".
Proof. by intros Hword ->. Qed.

(** GET_PEERS over a connection: whatever follows the command word, the
    reply is the listing. *)
Lemma get_peers_over_connection (t : PeerTracker) (now : Z) (data : string) :
  command_word data = Some "GET_PEERS" →
  _handle_client t now data = (t, Some (_handle_get_peers t (Text.split data)).2).
Proof.
  intros Hword. rewrite handle_client_nonempty by by eapply command_word_nonempty.
  by rewrite dispatch_cases, Hword.
Qed.

(** HEARTBEAT and UNREGISTER over a connection, for an id the registry
    lacks. *)
Lemma absent_peer_over_connection (t : PeerTracker) (now : Z) (data pid : string) :
  (command_word data = Some "HEARTBEAT" ∨ command_word data = Some "UNREGISTER") →
  Text.split data !! 1%nat = Some pid →
  peers t !! pid = None →
  _handle_client t now data = (t, Some (error_response "Peer not found")).
Proof.
  intros Hword Hpid Hnone.
  assert (Hlen : (length (Text.split data) <? 2)%nat = false).
  { apply Nat.ltb_ge. apply lookup_lt_Some in Hpid. lia. }
  destruct Hword as [Hword|Hword];
    rewrite handle_client_nonempty by (by eapply command_word_nonempty);
    rewrite dispatch_cases, Hword; simpl.
  - unfold _handle_heartbeat, part. by rewrite Hlen, Hpid; simpl; rewrite Hnone.
  - unfold _handle_unregister, part. by rewrite Hlen, Hpid; simpl; rewrite Hnone.
Qed.

(** C5, as the code has it. A payload that is not empty and is malformed
    (only whitespace; REGISTER with fewer than three arguments or with a
    port that is no integer; UNREGISTER or HEARTBEAT without a peer id; an
    unknown command word) is answered with an object
    [{status: error, message: ...}] and leaves the tracker as it was. *)
Theorem malformed_request_is_answered_with_error
  (t : PeerTracker) (now : Z) (data : string) :
  data ≠ "" →
  Malformed data →
  ∃ msg, _handle_client t now data = (t, Some (error_response msg)).
Proof.
  intros Hne Hbad. rewrite handle_client_nonempty by done. rewrite dispatch_cases.
  destruct Hbad as [Hsplit|Hcmd Hlen|e Hcmd Hport|Hcmd Hlen|Hcmd Hlen|word Hcmd Hword].
  - unfold command_word. rewrite Hsplit. simpl. eauto.
  - rewrite Hcmd. simpl. unfold _handle_register.
    apply Nat.ltb_lt in Hlen. rewrite Hlen. eauto.
  - rewrite Hcmd. simpl. unfold _handle_register.
    destruct (length (Text.split data) <? 4)%nat; [eauto|].
    rewrite Hport. simpl. eauto.
  - rewrite Hcmd. simpl. unfold _handle_unregister.
    apply Nat.ltb_lt in Hlen. rewrite Hlen. eauto.
  - rewrite Hcmd. simpl. unfold _handle_heartbeat.
    apply Nat.ltb_lt in Hlen. rewrite Hlen. eauto.
  - rewrite Hcmd.
    repeat match goal with
    | |- context [String.eqb word ?c] =>
        destruct (String.eqb_spec word c) as [->|_];
        [exfalso; apply Hword; unfold known_commands; set_solver|]
    end. eauto.
Qed.

Lemma malformed_request_is_answered_with_error_witness :
  ∃ msg, _handle_client two_peers 500 "REGISTER carol 10.0.0.3 60o3"
         = (two_peers, Some (error_response msg)).
Proof.
  apply (malformed_request_is_answered_with_error two_peers 500 "REGISTER carol 10.0.0.3 60o3").
  - discriminate.
  - apply (malformed_register_port _ (ValueError "60o3")); reflexivity.
Defined.

(** C5, as stated, fails: REGISTER followed by four arguments has the
    wrong arity, and is accepted; the registry gains a record. *)
Lemma register_with_surplus_argument_is_accepted :
  let data := "REGISTER carol 10.0.0.3 6003 extra" in
  let after := _handle_client two_peers 500 data in
  length (Text.split data) = 5%nat
  ∧ peers two_peers !! "carol" = None
  ∧ peers after.1 !! "carol" = Some (mkPeerRecord "10.0.0.3" 6003 500)
  ∧ after.2 = Some (mkResponse "success" (Some "Peer registered successfully") None (Some 3%nat))
  ∧ ¬ ∃ msg, after = (two_peers, Some (error_response msg)).
Proof.
  cbv zeta. repeat split; try (vm_compute; reflexivity).
  intros [msg Hmsg]. apply (f_equal snd) in Hmsg. vm_compute in Hmsg. discriminate.
Qed.

(** The other commands take surplus arguments the same way, and an empty
    read is closed without a reply. *)
Example surplus_arguments_elsewhere :
  (_handle_client two_peers 500 "UNREGISTER bob now").2
    = Some (mkResponse "success" (Some "Peer unregistered successfully") None None)
  ∧ (_handle_client two_peers 500 "HEARTBEAT bob now").2
    = Some (mkResponse "success" (Some "Heartbeat received") None None)
  ∧ _handle_client two_peers 500 "" = (two_peers, None).
Proof. repeat split. Qed.

Example malformed_examples :
  _handle_client two_peers 500 " " = (two_peers, Some (error_response "Empty command"))
  ∧ _handle_client two_peers 500 "REGISTER carol 10.0.0.3"
    = (two_peers,
       Some (error_response "Invalid format. Use: REGISTER <peer_id> <ip> <port>"))
  ∧ _handle_client two_peers 500 "REGISTER carol 10.0.0.3 60o3"
    = (two_peers,
       Some (error_response "invalid literal for int() with base 10: '60o3'"))
  ∧ _handle_client two_peers 500 "heartbeat"
    = (two_peers, Some (error_response "Invalid format. Use: HEARTBEAT <peer_id>"))
  ∧ _handle_client two_peers 500 "LIST"
    = (two_peers, Some (error_response "Unknown command")).
Proof. repeat split. Qed.

End Requests.

(** ** The registry over a run *)

Section Runs.

Import PeerTracker.

Lemma kept_or_stamped_refl (now : Z) (m : gmap string PeerRecord) :
  kept_or_stamped now m m.
Proof. intros k r Hr. by left. Qed.

Lemma register_kept_or_stamped (t t' : PeerTracker) (now : Z) (parts : list string)
    (reply : Response) :
  _handle_register t now parts = Ok (t', reply) →
  kept_or_stamped now (peers t) (peers t').
Proof.
  unfold _handle_register. destruct (length parts <? 4)%nat.
  - intros [= <- _]. apply kept_or_stamped_refl.
  - destruct (Text.int (part parts 3)) as [n|e]; simpl; [|done].
    intros [= <- _]. intros k r'. simpl.
    destruct (decide (part parts 1 = k)) as [->|Hne].
    + rewrite lookup_insert_eq. intros [= <-]. by right.
    + rewrite lookup_insert_ne by done. by left.
Qed.

Lemma unregister_kept_or_stamped (t : PeerTracker) (now : Z) (parts : list string) :
  kept_or_stamped now (peers t) (peers (_handle_unregister t parts).1).
Proof.
  unfold _handle_unregister. destruct (length parts <? 2)%nat.
  - apply kept_or_stamped_refl.
  - destruct (peers t !! part parts 1); [|apply kept_or_stamped_refl].
    intros k r'. simpl. intros Hr'. left.
    apply lookup_delete_Some in Hr'. tauto.
Qed.

Lemma heartbeat_kept_or_stamped (t : PeerTracker) (now : Z) (parts : list string) :
  kept_or_stamped now (peers t) (peers (_handle_heartbeat t now parts).1).
Proof.
  unfold _handle_heartbeat. destruct (length parts <? 2)%nat.
  - apply kept_or_stamped_refl.
  - destruct (peers t !! part parts 1) as [r|]; [|apply kept_or_stamped_refl].
    intros k r'. simpl.
    destruct (decide (part parts 1 = k)) as [->|Hne].
    + rewrite lookup_insert_eq. intros [= <-]. by right.
    + rewrite lookup_insert_ne by done. by left.
Qed.

Lemma sweep_kept_or_stamped (t : PeerTracker) (now : Z) :
  kept_or_stamped now (peers t) (peers (_cleanup_inactive_peers t now)).
Proof. intros k r' Hr'. left. apply sweep_lookup in Hr'. tauto. Qed.

Lemma handle_client_kept_or_stamped (t : PeerTracker) (now : Z) (data : string) :
  kept_or_stamped now (peers t) (peers (_handle_client t now data).1).
Proof.
  destruct (decide (data = "")) as [->|Hne]; [apply kept_or_stamped_refl|].
  rewrite handle_client_nonempty by done. rewrite dispatch_cases.
  destruct (command_word data) as [word|]; [|apply kept_or_stamped_refl].
  destruct (String.eqb word "REGISTER").
  { destruct (_handle_register t now (Text.split data)) as [[t' r]|e] eqn:E.
    - by eapply register_kept_or_stamped.
    - apply kept_or_stamped_refl. }
  destruct (String.eqb word "GET_PEERS"); [apply kept_or_stamped_refl|].
  destruct (String.eqb word "UNREGISTER").
  { pose proof (unregister_kept_or_stamped t now (Text.split data)) as H.
    by destruct (_handle_unregister t (Text.split data)). }
  destruct (String.eqb word "HEARTBEAT").
  { pose proof (heartbeat_kept_or_stamped t now (Text.split data)) as H.
    by destruct (_handle_heartbeat t now (Text.split data)). }
  apply kept_or_stamped_refl.
Qed.

Lemma step_kept_or_stamped (t : PeerTracker) (now : Z) (ev : Event) :
  kept_or_stamped now (peers t) (peers (step t (now, ev))).
Proof.
  destruct ev; [apply handle_client_kept_or_stamped | apply sweep_kept_or_stamped].
Qed.

Lemma seen_by_step (t : PeerTracker) (lo now : Z) (ev : Event) :
  seen_by lo (peers t) → (lo ≤ now)%Z → seen_by now (peers (step t (now, ev))).
Proof.
  intros Hseen Hle k r' Hr'.
  destruct (step_kept_or_stamped t now ev k r' Hr') as [Hold| ->]; [|lia].
  specialize (Hseen k r' Hold). lia.
Qed.

Lemma run_snoc (t : PeerTracker) (events : list (Z * Event)) (e : Z * Event) :
  run t (events ++ [e])%list = step (run t events) e.
Proof. unfold run. by rewrite foldl_app. Qed.

(** After a run on a non-decreasing clock, no record is stamped later than
    any reading at or past the last one. *)
Lemma seen_by_run (events : list (Z * Event)) (hi : Z) :
  StronglySorted Z.le (events.*1 ++ [hi])%list →
  seen_by hi (peers (run init events)).
Proof.
  revert hi. induction events as [|[now ev] events IH] using rev_ind; intros hi Hsorted.
  - intros k r Hr. unfold run in Hr. simpl in Hr. by rewrite lookup_empty in Hr.
  - rewrite run_snoc. rewrite fmap_app in Hsorted. simpl in Hsorted.
    assert (Hnow : (now ≤ hi)%Z).
    { eapply (StronglySorted_app_1_elem_of _ _ [hi] now hi); [exact Hsorted | | ].
      - apply elem_of_app. right. by left.
      - by left. }
    apply StronglySorted_app_1_l in Hsorted.
    intros k r Hr. pose proof (seen_by_step _ now now ev (IH now Hsorted)) as Hstep.
    specialize (Hstep ltac:(lia) k r Hr). lia.
Qed.

(** C6. Run any sequence of requests and sweep ticks from the initial
    tracker, on a clock that never goes back. At every step of the run the
    registry holds one record per peer id (the listing has no repeated
    id), and a record that is there before and after the step has a
    [last_seen] that did not decrease. *)
Theorem registry_invariant
  (events pre post : list (Z * Event)) (now : Z) (ev : Event) :
  Sorted Z.le events.*1 →
  events = (pre ++ (now, ev) :: post)%list →
  let before := run init pre in
  let after := step before (now, ev) in
  NoDup (entry_peer_id <$> listed after)
  ∧ ∀ k r r', peers before !! k = Some r → peers after !! k = Some r' →
              (last_seen r ≤ last_seen r')%Z.
Proof.
  intros Hsorted -> before after. split; [apply NoDup_listed_ids|].
  apply Sorted_StronglySorted in Hsorted; [|apply _].
  rewrite fmap_app, fmap_cons in Hsorted.
  apply StronglySorted_app in Hsorted as (Hcross & Hleft & _).
  assert (Hpre : StronglySorted Z.le (pre.*1 ++ [now])%list).
  { apply StronglySorted_app_2; [|done|repeat constructor].
    intros x1 x2 Hx1 Hx2. apply list_elem_of_singleton in Hx2 as ->.
    apply Hcross; [done | by left]. }
  pose proof (seen_by_run pre now Hpre) as Hseen. fold before in Hseen.
  intros k r r' Hr Hr'.
  destruct (step_kept_or_stamped before now ev k r' Hr') as [Hold|Hstamp].
  - rewrite Hr in Hold. injection Hold as ->. lia.
  - rewrite Hstamp. by apply (Hseen k r).
Qed.

Lemma registry_invariant_witness :
  let events :=
    [(10, Request "REGISTER alice 10.0.0.1 6001"); (20, Request "HEARTBEAT alice");
     (20, Request "REGISTER alice 10.0.0.7 6007"); (400, SweepTick)]%Z in
  let before := run init [(10, Request "REGISTER alice 10.0.0.1 6001")]%Z in
  let after := step before (20, Request "HEARTBEAT alice")%Z in
  Sorted Z.le events.*1
  ∧ NoDup (entry_peer_id <$> listed after)
  ∧ ∀ k r r', peers before !! k = Some r → peers after !! k = Some r' →
              (last_seen r ≤ last_seen r')%Z.
Proof.
  cbv zeta.
  assert (Hsorted : Sorted Z.le
    ([(10, Request "REGISTER alice 10.0.0.1 6001"); (20, Request "HEARTBEAT alice");
      (20, Request "REGISTER alice 10.0.0.7 6007"); (400, SweepTick)]%Z).*1).
  { simpl. repeat constructor; lia. }
  split; [exact Hsorted|].
  exact (registry_invariant _ [(10, Request "REGISTER alice 10.0.0.1 6001")]%Z
           [(20, Request "REGISTER alice 10.0.0.7 6007"); (400, SweepTick)]%Z
           20%Z (Request "HEARTBEAT alice") Hsorted eq_refl).
Defined.

Example run_example :
  peers (run init [(10, Request "REGISTER alice 10.0.0.1 6001");
                   (20, Request "HEARTBEAT alice");
                   (30, Request "REGISTER bob 10.0.0.2 6002");
                   (321, SweepTick)]%Z)
  = <["bob" := mkPeerRecord "10.0.0.2" 6002 30]> ∅.
Proof. vm_compute. reflexivity. Qed.

End Runs.

(** ** Refreshing the peer list *)

Section Refresh.

Import ChatClient.

Lemma store_peer_lookup (self k : string) (info : gmap string PeerInfo) (e : PeerEntry) :
  store_peer self info e !! k
  = if decide (entry_peer_id e = k ∧ k ≠ self)
    then Some (mkPeerInfo (entry_ip e) (entry_port e))
    else info !! k.
Proof.
  unfold store_peer.
  destruct (String.eqb_spec (entry_peer_id e) self) as [Heq|Hne].
  - rewrite decide_False; [done|]. intros [<- Hk]. by apply Hk.
  - destruct (decide (entry_peer_id e = k)) as [<-|Hk].
    + rewrite decide_True by done. apply lookup_insert_eq.
    + rewrite decide_False by tauto. by apply lookup_insert_ne.
Qed.

Lemma store_peers_lookup (self k : string) (l : list PeerEntry)
    (info : gmap string PeerInfo) (v : PeerInfo) :
  foldl (store_peer self) info l !! k = Some v →
  info !! k = Some v
  ∨ (k ≠ self ∧ ∃ e, e ∈ l ∧ entry_peer_id e = k
                     ∧ v = mkPeerInfo (entry_ip e) (entry_port e)).
Proof.
  revert info. induction l as [|x l IH]; intros info; cbn [foldl]; [by left|].
  intros Hv. apply IH in Hv as [Hv|(Hk & e & He & Hid & ->)].
  - rewrite store_peer_lookup in Hv.
    destruct (decide (entry_peer_id x = k ∧ k ≠ self)) as [[Hid Hk]|_]; [|by left].
    right. split; [done|]. exists x. split; [by left|]. split; [done | congruence].
  - right. split; [done|]. exists e. split; [by right | done].
Qed.

Lemma store_peers_keeps (self k : string) (l : list PeerEntry) (info : gmap string PeerInfo) :
  is_Some (info !! k) → is_Some (foldl (store_peer self) info l !! k).
Proof.
  revert info. induction l as [|x l IH]; intros info Hk; cbn [foldl]; [done|].
  apply IH. rewrite store_peer_lookup. by destruct (decide _).
Qed.

Lemma store_peers_untouched (self k : string) (l : list PeerEntry)
    (info : gmap string PeerInfo) :
  k ∉ entry_peer_id <$> l → foldl (store_peer self) info l !! k = info !! k.
Proof.
  revert info. induction l as [|x l IH]; intros info Hk; cbn [foldl]; [done|].
  rewrite fmap_cons, not_elem_of_cons in Hk. destruct Hk as [Hx Hl].
  rewrite IH by done. rewrite store_peer_lookup.
  rewrite decide_False; [done|]. intros [Hid _]. by apply Hx.
Qed.

Lemma store_peers_stored (self : string) (l : list PeerEntry) (info : gmap string PeerInfo)
    (e : PeerEntry) :
  NoDup (entry_peer_id <$> l) → e ∈ l → entry_peer_id e ≠ self →
  foldl (store_peer self) info l !! entry_peer_id e
  = Some (mkPeerInfo (entry_ip e) (entry_port e)).
Proof.
  revert info. induction l as [|x l IH]; intros info Hnodup He Hself; cbn [foldl].
  - by apply elem_of_nil in He.
  - rewrite fmap_cons in Hnodup. apply NoDup_cons in Hnodup as [Hx Hnodup].
    apply elem_of_cons in He as [->|He].
    + rewrite store_peers_untouched by done. rewrite store_peer_lookup.
      by rewrite decide_True.
    + by apply IH.
Qed.

Lemma store_peers_size (self : string) (l : list PeerEntry) (info : gmap string PeerInfo) :
  (size info ≤ size (foldl (store_peer self) info l))%nat.
Proof.
  revert info. induction l as [|x l IH]; intros info; cbn [foldl]; [done|].
  etrans; [|apply IH]. unfold store_peer.
  destruct (String.eqb (entry_peer_id x) self); [done|].
  rewrite map_size_insert. destruct (info !! entry_peer_id x); simpl; lia.
Qed.

(** The cache after [_update_peer_list], whatever the exchange gave. *)
Lemma update_peer_list_cases (c : ChatClient) (exchange : result Response) :
  (peer_info (_update_peer_list c exchange) = peer_info c)
  ∨ (∃ reply, exchange = Ok reply
      ∧ peer_info (_update_peer_list c exchange)
        = foldl (store_peer (peer_id c)) (peer_info c) (default [] (peers_field reply))).
Proof.
  unfold _update_peer_list. destruct exchange as [reply|e]; simpl; [|by left].
  destruct (String.eqb (status reply) "success"); simpl; [|by left].
  right. by exists reply.
Qed.

Lemma update_peer_list_peer_id (c : ChatClient) (exchange : result Response) :
  peer_id (_update_peer_list c exchange) = peer_id c.
Proof.
  unfold _update_peer_list. destruct exchange as [reply|e]; simpl; [|done].
  by destruct (String.eqb (status reply) "success").
Qed.

(** C7. Let the cache hold no entry for the client's own id (as it does
    when the client is created). After [_update_peer_list] on the reply
    the tracker gives to GET_PEERS, the cache still holds no entry for the
    client's own id, and for every other registered peer it holds that
    peer's ip and port as the reply carries them. Whatever the exchange
    gave, failure included, the own id stays out. *)
Theorem refresh_filters_self (c : ChatClient) (t : PeerTracker) (parts : list string) :
  peer_info c !! peer_id c = None →
  let c' := _update_peer_list c (Ok (PeerTracker._handle_get_peers t parts).2) in
  peer_id c' = peer_id c
  ∧ peer_info c' !! peer_id c' = None
  ∧ (∀ e, e ∈ listed t → entry_peer_id e ≠ peer_id c →
          peer_info c' !! entry_peer_id e = Some (mkPeerInfo (entry_ip e) (entry_port e)))
  ∧ (∀ exchange, peer_info (_update_peer_list c exchange) !! peer_id c = None).
Proof.
  intros Hself c'.
  assert (Hany : ∀ exchange, peer_info (_update_peer_list c exchange) !! peer_id c = None).
  { intros exchange.
    destruct (update_peer_list_cases c exchange) as [->|(reply & _ & ->)]; [done|].
    destruct (foldl _ _ _ !! peer_id c) as [v|] eqn:E; [|done].
    apply store_peers_lookup in E as [E|[Hne _]]; [congruence | done]. }
  subst c'. split; [apply update_peer_list_peer_id|].
  split; [rewrite update_peer_list_peer_id; apply Hany|].
  split; [|exact Hany].
  intros e He Hne. unfold _update_peer_list. simpl.
  apply store_peers_stored; [apply NoDup_listed_ids | exact He | exact Hne].
Qed.

Lemma refresh_filters_self_witness :
  let c' := _update_peer_list (init "alice" 6001)
              (Ok (PeerTracker._handle_get_peers two_peers []).2) in
  peer_info c' !! "alice" = None
  ∧ peer_info c' !! "bob" = Some (mkPeerInfo "10.0.0.2" 6002).
Proof.
  cbv zeta.
  destruct (refresh_filters_self (init "alice" 6001) two_peers [] eq_refl)
    as (_ & Hself & Hothers & _).
  split; [exact Hself|].
  apply (Hothers (mkPeerEntry "bob" "10.0.0.2" 6002)).
  - apply elem_of_listed. exists (mkPeerRecord "10.0.0.2" 6002 100).
    repeat split; reflexivity.
  - discriminate.
Defined.

(** C8. [_update_peer_list] deletes nothing: every id in the cache before
    is in it after, with the value it had or with the ip and port of an
    entry of the reply for that id; so the cache does not shrink. This
    holds for every exchange: a failed one, a reply that is no success, a
    reply listing other peers only. *)
Theorem refresh_never_deletes (c : ChatClient) (exchange : result Response) :
  let c' := _update_peer_list c exchange in
  (∀ k v, peer_info c !! k = Some v →
     ∃ v', peer_info c' !! k = Some v'
           ∧ (v' = v
              ∨ ∃ reply e, exchange = Ok reply ∧ e ∈ default [] (peers_field reply)
                           ∧ entry_peer_id e = k
                           ∧ v' = mkPeerInfo (entry_ip e) (entry_port e)))
  ∧ dom (peer_info c) ⊆ dom (peer_info c')
  ∧ (size (peer_info c) ≤ size (peer_info c'))%nat.
Proof.
  intros c'. subst c'.
  destruct (update_peer_list_cases c exchange) as [->|(reply & -> & ->)].
  - split; [|done]. intros k v Hv. exists v. by split; [|left].
  - split; [|split].
    + intros k v Hv.
      destruct (store_peers_keeps (peer_id c) k (default [] (peers_field reply))
                  (peer_info c)) as [v' Hv']; [by eauto|].
      exists v'. split; [done|].
      apply store_peers_lookup in Hv' as [Hv'|(_ & e & He & Hid & ->)].
      * left. congruence.
      * right. by exists reply, e.
    + intros k. rewrite !elem_of_dom. apply store_peers_keeps.
    + apply store_peers_size.
Qed.

(** A stale entry outlives a refresh that no longer lists it. *)
Example refresh_keeps_stale_entry :
  peer_info (_update_peer_list alice (Ok (PeerTracker._handle_get_peers two_peers []).2))
  = <["bob" := mkPeerInfo "10.0.0.2" 6002]>
      (<["carol" := mkPeerInfo "10.0.0.3" 6003]>
         (<["dave" := mkPeerInfo "10.0.0.4" 6004]> ∅)).
Proof. vm_compute. reflexivity. Qed.

Example refresh_on_failure :
  _update_peer_list alice (Raise (OSError "Connection refused")) = alice
  ∧ _update_peer_list alice (Ok (error_response "Unknown command")) = alice.
Proof. split; reflexivity. Qed.

End Refresh.

(** ** Inbound messages *)

Section Inbound.

Import ChatClient.

(** C10. An inbound payload that [json.loads] rejects, or that decodes to
    something other than an object, or whose [type] is neither [direct]
    nor [broadcast], is dropped: [_process_peer_message] returns (the
    exception, if any, is caught inside it) and the client is exactly as
    before, message history included. *)
Theorem unrecognised_payload_is_dropped
  (json_loads : string → result json) (c : ChatClient) (message : string) (now : Z) :
  Unrecognised (json_loads message) →
  _process_peer_message json_loads c message now = c.
Proof.
  intros Hbad. unfold _process_peer_message.
  destruct Hbad as [e|v Hv|fields Hdirect Hbroadcast]; simpl.
  - reflexivity.
  - destruct v; try reflexivity. by destruct (Hv fields).
  - by rewrite Hdirect, Hbroadcast.
Qed.

Lemma unrecognised_payload_is_dropped_witness :
  _process_peer_message table_loads alice "ping" 500 = alice
  ∧ _process_peer_message table_loads alice "list" 500 = alice
  ∧ _process_peer_message table_loads alice "{" 500 = alice.
Proof.
  split; [|split].
  - apply (unrecognised_payload_is_dropped table_loads alice "ping" 500).
    apply other_type; reflexivity.
  - apply (unrecognised_payload_is_dropped table_loads alice "list" 500).
    apply not_an_object. discriminate.
  - apply (unrecognised_payload_is_dropped table_loads alice "{" 500).
    apply not_json.
Defined.

(** A [direct] message, for contrast, is appended. *)
Example direct_message_is_appended :
  messages (_process_peer_message table_loads alice "hello" 500)
  = [mkMessage "direct" (JString "bob") (JString "hi") 500].
Proof. reflexivity. Qed.

End Inbound.

(** ** Broadcast *)

Section Broadcast.

Import ChatClient.

Variable net : Network.
Variable payload : string.

(** One iteration: what it adds to the count, and what it leaves alone. *)
Lemma broadcast_to_step (c : ChatClient) (n : nat) (k : string) :
  let st := broadcast_to net payload (c, n) k in
  st.2 = (n + (if reaches net c payload k then 1 else 0))%nat
  ∧ peer_info st.1 = peer_info c
  ∧ (∀ k', k' ≠ k → peer_connections st.1 !! k' = peer_connections c !! k')
  ∧ ∃ calls, net_calls st.1 = (net_calls c ++ calls)%list
             ∧ Forall (λ call, call_target call = k) calls
             ∧ (is_Some (peer_info c !! k) → calls ≠ []).
Proof.
  unfold broadcast_to, reaches, _connect_to_peer, sendall.
  destruct (peer_connections c !! k) as [conn|] eqn:Econn.
  - destruct (net_sendall net k conn payload) as [[]|e] eqn:Esend; simpl;
      rewrite ?Esend; simpl.
    all: split; [lia|]; split; [done|]; split; [done|].
    all: eexists [_]; split; [reflexivity|]; split; [by repeat constructor | done].
  - destruct (peer_info c !! k) as [peer|] eqn:Einfo; simpl.
    + destruct (net_connect net k (info_ip peer) (info_port peer)) as [sock|e] eqn:Edial;
        simpl.
      * destruct (net_sendall net k sock payload) as [[]|e] eqn:Esend; simpl.
        all: split; [lia|]; split; [done|].
        all: split; [intros k' Hk'; by rewrite lookup_insert_ne|].
        all: eexists [_; _]; split; [by rewrite <- app_assoc|].
        all: split; [by repeat constructor | done].
      * split; [lia|]. split; [done|]. split; [done|].
        eexists [_]; split; [reflexivity|]; split; [by repeat constructor | done].
    + split; [lia|]. split; [done|]. split; [done|].
      exists []. split; [by rewrite app_nil_r|]. split; [constructor|].
      by intros [? ?].
Qed.

Lemma reaches_agree (c c' : ChatClient) (k : string) :
  peer_info c' = peer_info c →
  peer_connections c' !! k = peer_connections c !! k →
  reaches net c' payload k = reaches net c payload k.
Proof. intros Hinfo Hconn. unfold reaches. by rewrite Hinfo, Hconn. Qed.

(** The whole loop over targets that do not repeat. *)
Lemma broadcast_loop (l : list string) (c : ChatClient) (n : nat) :
  NoDup l →
  let st := foldl (broadcast_to net payload) (c, n) l in
  st.2 = (n + length (List.filter (reaches net c payload) l))%nat
  ∧ peer_info st.1 = peer_info c
  ∧ (∀ k, k ∉ l → peer_connections st.1 !! k = peer_connections c !! k)
  ∧ ∃ calls, net_calls st.1 = (net_calls c ++ calls)%list
             ∧ Forall (λ call, call_target call ∈ l) calls
             ∧ (∀ k, k ∈ l → is_Some (peer_info c !! k) →
                     ∃ call, call ∈ calls ∧ call_target call = k).
Proof.
  revert c n. induction l as [|k l IH]; intros c n Hnodup; cbn [foldl].
  - simpl. split; [lia|]. split; [done|]. split; [done|].
    exists []. split; [by rewrite app_nil_r|]. split; [constructor|].
    intros k Hk. by apply elem_of_nil in Hk.
  - apply NoDup_cons in Hnodup as [Hk Hnodup].
    destruct (broadcast_to_step c n k) as (Hn & Hinfo & Hconn & calls1 & Hcalls1 & Hto1 & Hsome1).
    destruct (broadcast_to net payload (c, n) k) as [c1 n1]. simpl in *.
    destruct (IH c1 n1 Hnodup) as (Hn' & Hinfo' & Hconn' & calls & Hcalls & Hto & Hsome).
    split; [|split; [|split]].
    + rewrite Hn', Hn.
      assert (Hsame : List.filter (reaches net c1 payload) l
                      = List.filter (reaches net c payload) l).
      { apply List.filter_ext_in. intros k' Hk'. apply reaches_agree; [done|].
        apply Hconn. intros ->. apply Hk. by apply list_elem_of_In. }
      rewrite Hsame. destruct (reaches net c payload k); simpl; lia.
    + congruence.
    + intros k' Hk'. apply not_elem_of_cons in Hk' as [Hne Hk'].
      rewrite Hconn' by done. by apply Hconn.
    + exists (calls1 ++ calls)%list. split; [|split].
      * by rewrite Hcalls, Hcalls1, app_assoc.
      * apply Forall_app. split.
        -- eapply Forall_impl; [exact Hto1|]. intros call ->. by left.
        -- eapply Forall_impl; [exact Hto|]. intros call Hcall. by right.
      * intros k' Hk' Hsome'. apply elem_of_cons in Hk' as [->|Hk'].
        -- destruct calls1 as [|call calls1]; [by destruct (Hsome1 Hsome')|].
           exists call. split; [by left|]. by apply Forall_cons in Hto1 as [? _].
        -- rewrite <- Hinfo in Hsome'. destruct (Hsome k' Hk' Hsome') as (call & Hin & Htarget).
           exists call. split; [|done]. apply elem_of_app. by right.
Qed.

Lemma filter_complement_length {A : Type} (f : A → bool) (l : list A) :
  (length (List.filter f l) + length (List.filter (λ x, negb (f x)) l))%nat = length l.
Proof. induction l as [|x l IH]; simpl; [done|]. destruct (f x); simpl; lia. Qed.

End Broadcast.

Section BroadcastMessage.

Import ChatClient.

(** C4. With N peers in the cache, of which K cannot be connected to or
    sent to, [broadcast_message] returns (every exception of [connect]
    and [sendall] is caught inside the loop) and reports
    [sent_count = N - K]. Every cached peer is attempted: the calls made
    on the network during the broadcast include one for each of them, and
    none for anyone else. The cache is not changed. *)
Theorem broadcast_counts_successes
  (json_dumps : json → string) (net : Network) (c : ChatClient) (message : string) :
  let payload := json_dumps (broadcast_envelope c message) in
  let N := size (peer_info c) in
  let K := failures net c payload in
  let after := broadcast_message json_dumps net c message in
  after.2 = (N - K)%nat
  ∧ (after.2 + K)%nat = N
  ∧ peer_info after.1 = peer_info c
  ∧ ∃ calls, net_calls after.1 = (net_calls c ++ calls)%list
             ∧ (∀ k, is_Some (peer_info c !! k) →
                     ∃ call, call ∈ calls ∧ call_target call = k)
             ∧ (∀ call, call ∈ calls → is_Some (peer_info c !! call_target call)).
Proof.
  intros payload N K after.
  pose proof (broadcast_loop net payload (map_to_list (peer_info c)).*1 c 0%nat
                (NoDup_fst_map_to_list _)) as (Hn & Hinfo & _ & calls & Hcalls & Hto & Hall).
  fold payload in Hn, Hinfo, Hcalls.
  assert (Hkeys : ∀ k, k ∈ (map_to_list (peer_info c)).*1 ↔ is_Some (peer_info c !! k)).
  { intros k. rewrite list_elem_of_fmap. split.
    - intros [[k' v] [-> Hin]]. apply elem_of_map_to_list in Hin. eauto.
    - intros [v Hv]. exists (k, v). split; [done|]. by apply elem_of_map_to_list. }
  assert (Hsum : (after.2 + K)%nat = N).
  { subst after K N. unfold broadcast_message, failures. fold (broadcast_envelope c message).
    fold payload. rewrite Hn. simpl.
    rewrite filter_complement_length. by rewrite length_fmap, length_map_to_list. }
  split; [lia|]. split; [exact Hsum|]. split; [exact Hinfo|].
  exists calls. split; [exact Hcalls|]. split.
  - intros k Hk. apply Hall; [by apply Hkeys | done].
  - intros call Hcall. apply Hkeys. rewrite Forall_forall in Hto. by apply Hto.
Qed.

(** Three cached peers: bob is reached over a new connection, the send
    to carol fails on the cached connection, dave refuses the connection.
    N = 3, K = 2, one message sent. *)
Example broadcast_example :
  (broadcast_message content_dumps flaky alice "hi").2 = 1%nat
  ∧ failures flaky alice "hi" = 2%nat
  ∧ peer_connections (broadcast_message content_dumps flaky alice "hi").1
    = <["bob" := mkSocket 9]> (<["carol" := mkSocket 7]> ∅).
Proof. repeat split; vm_compute; reflexivity. Qed.

End BroadcastMessage.

(** ** The own id never enters the cache *)

Section Reachability.

Import ChatClient.

Variable json_loads : string → result json.
Variable json_dumps : json → string.
Variable net : Network.

Lemma process_peer_message_frame (c : ChatClient) (message : string) (now : Z) :
  let c' := _process_peer_message json_loads c message now in
  peer_id c' = peer_id c ∧ peer_info c' = peer_info c
  ∧ peer_connections c' = peer_connections c.
Proof.
  unfold _process_peer_message.
  destruct (json_loads message) as [v|e]; simpl; [|done].
  destruct v; simpl; try done.
  destruct (json_eq_str (dict_get "type" fields) "direct"); [done|].
  by destruct (json_eq_str (dict_get "type" fields) "broadcast").
Qed.

Lemma connect_to_peer_frame (c : ChatClient) (target : string) :
  let c' := (_connect_to_peer net c target).1 in
  peer_id c' = peer_id c ∧ peer_info c' = peer_info c.
Proof.
  unfold _connect_to_peer. destruct (peer_info c !! target) as [peer|]; [|done].
  by destruct (net_connect net target (info_ip peer) (info_port peer)).
Qed.

Lemma send_direct_message_frame (c : ChatClient) (target message : string) :
  let c' := send_direct_message json_dumps net c target message in
  peer_id c' = peer_id c ∧ peer_info c' = peer_info c.
Proof.
  unfold send_direct_message.
  destruct (peer_connections c !! target) as [conn|]; [done|].
  pose proof (connect_to_peer_frame c target) as Hframe.
  destruct (_connect_to_peer net c target) as [c1 [conn|]]; simpl in *; done.
Qed.

Lemma broadcast_to_peer_id (payload : string) (st : ChatClient * nat) (target : string) :
  peer_id (broadcast_to net payload st target).1 = peer_id st.1.
Proof.
  destruct st as [c n]. unfold broadcast_to.
  destruct (peer_connections c !! target) as [conn|].
  - simpl. by destruct (net_sendall net target conn payload).
  - pose proof (connect_to_peer_frame c target) as [Hid _].
    destruct (_connect_to_peer net c target) as [c1 [conn|]]; simpl in *; [|done].
    by destruct (net_sendall net target conn payload).
Qed.

Lemma broadcast_loop_peer_id (payload : string) (l : list string) (st : ChatClient * nat) :
  peer_id (foldl (broadcast_to net payload) st l).1 = peer_id st.1.
Proof.
  revert st. induction l as [|k l IH]; intros st; cbn [foldl]; [done|].
  rewrite IH. apply broadcast_to_peer_id.
Qed.

(** In every state a client can be in, its own id has no cache entry. *)
Lemma reachable_cache_excludes_self (c : ChatClient) :
  Reachable json_loads json_dumps net c → peer_info c !! peer_id c = None.
Proof.
  induction 1 as [pid lport|c exchange _ IH|c message now _ IH|c target message _ IH
                  |c message _ IH].
  - reflexivity.
  - rewrite update_peer_list_peer_id.
    destruct (update_peer_list_cases c exchange) as [->|(reply & _ & ->)]; [done|].
    destruct (foldl _ _ _ !! peer_id c) as [v|] eqn:E; [|done].
    apply store_peers_lookup in E as [E|[Hne _]]; [congruence | done].
  - destruct (process_peer_message_frame c message now) as (-> & -> & _). exact IH.
  - destruct (send_direct_message_frame c target message) as (-> & ->). exact IH.
  - unfold broadcast_message. rewrite broadcast_loop_peer_id. simpl.
    pose proof (broadcast_loop net (json_dumps (broadcast_envelope c message))
                  (map_to_list (peer_info c)).*1 c 0%nat (NoDup_fst_map_to_list _))
      as (_ & Hinfo & _).
    unfold broadcast_envelope in Hinfo. by rewrite Hinfo.
Qed.

End Reachability.

(** * Further properties of the tracker *)

Section TrackerOperations.

Import PeerTracker.

(** X1. A REGISTER for an id the registry lacks adds exactly that record:
    the count in the reply is the old size plus one, the record carries
    the ip and port of the command and the stamp [now], every other id
    is as before, and GET_PEERS lists the new peer. *)
Theorem register_new_peer
  (t : PeerTracker) (now : Z) (cmd pid ip' tok : string) (rest : list string) (port' : Z) :
  peers t !! pid = None →
  Text.int tok = Ok port' →
  ∃ t' reply,
    _handle_register t now (cmd :: pid :: ip' :: tok :: rest) = Ok (t', reply)
    ∧ peers t' = <[pid := mkPeerRecord ip' port' now]> (peers t)
    ∧ status reply = "success"
    ∧ peer_count reply = Some (S (size (peers t)))
    ∧ peer_timeout t' = peer_timeout t
    ∧ mkPeerEntry pid ip' port' ∈ listed t'
    ∧ length (listed t') = S (length (listed t)).
Proof.
  intros Hnone Hint. unfold _handle_register, part.
  cbn [length Nat.ltb Nat.leb lookup list_lookup default]. simpl. rewrite Hint. simpl.
  eexists _, _. split; [reflexivity|]. simpl.
  assert (Hsize : size (<[pid := mkPeerRecord ip' port' now]> (peers t)) = S (size (peers t)))
    by (by apply map_size_insert_None).
  split; [done|]. split; [done|]. split; [by rewrite Hsize|]. split; [done|]. split.
  - apply elem_of_listed. exists (mkPeerRecord ip' port' now). simpl.
    by rewrite lookup_insert_eq.
  - rewrite !length_listed. simpl. exact Hsize.
Qed.

Lemma register_new_peer_witness :
  ∃ t' reply,
    _handle_register two_peers 500 ["register"; "carol"; "10.0.0.3"; "6003"] = Ok (t', reply)
    ∧ peers t' = <["carol" := mkPeerRecord "10.0.0.3" 6003 500]> (peers two_peers)
    ∧ status reply = "success"
    ∧ peer_count reply = Some (S (size (peers two_peers)))
    ∧ peer_timeout t' = peer_timeout two_peers
    ∧ mkPeerEntry "carol" "10.0.0.3" 6003 ∈ listed t'
    ∧ length (listed t') = S (length (listed two_peers)).
Proof.
  apply (register_new_peer two_peers 500 "register" "carol" "10.0.0.3" "6003" [] 6003);
    reflexivity.
Defined.

(** X2. An UNREGISTER for an id the registry holds removes exactly that
    record: the reply is a success, the id is gone from the registry and
    from the listing, every other id is as before, and the size drops by
    one. *)
Theorem unregister_removes_exactly_one
  (t : PeerTracker) (cmd pid : string) (rest : list string) (r : PeerRecord) :
  peers t !! pid = Some r →
  let after := _handle_unregister t (cmd :: pid :: rest) in
  status after.2 = "success"
  ∧ peers after.1 = delete pid (peers t)
  ∧ peers after.1 !! pid = None
  ∧ (∀ k, k ≠ pid → peers after.1 !! k = peers t !! k)
  ∧ S (size (peers after.1)) = size (peers t)
  ∧ (pid ∉ entry_peer_id <$> listed after.1)
  ∧ peer_timeout after.1 = peer_timeout t.
Proof.
  intros Hr. unfold _handle_unregister, part. simpl. rewrite Hr. simpl.
  split; [done|]. split; [done|]. split; [apply lookup_delete_eq|].
  split; [intros k Hk; by apply lookup_delete_ne|]. split.
  - rewrite map_size_delete, Hr.
    assert (size (peers t) ≠ 0%nat); [|simpl; lia].
    apply map_size_ne_0_lookup. by exists pid, r.
  - split; [|done]. rewrite elem_of_listed_ids. simpl. rewrite lookup_delete_eq.
    by intros [? ?].
Qed.

Lemma unregister_removes_exactly_one_witness :
  let after := _handle_unregister two_peers ["UNREGISTER"; "bob"] in
  status after.2 = "success"
  ∧ peers after.1 = delete "bob" (peers two_peers)
  ∧ peers after.1 !! "bob" = None
  ∧ (∀ k, k ≠ "bob" → peers after.1 !! k = peers two_peers !! k)
  ∧ S (size (peers after.1)) = size (peers two_peers)
  ∧ ("bob" ∉ entry_peer_id <$> listed after.1)
  ∧ peer_timeout after.1 = peer_timeout two_peers.
Proof.
  apply (unregister_removes_exactly_one two_peers "UNREGISTER" "bob" []
           (mkPeerRecord "10.0.0.2" 6002 100)).
  reflexivity.
Defined.

(** X3. A HEARTBEAT for an id the registry holds changes the stamp of that
    record and nothing else: its ip and port stay, every other record
    stays, and so does the size. *)
Theorem heartbeat_restamps_only
  (t : PeerTracker) (now : Z) (cmd pid : string) (rest : list string) (r : PeerRecord) :
  peers t !! pid = Some r →
  let after := _handle_heartbeat t now (cmd :: pid :: rest) in
  status after.2 = "success"
  ∧ peers after.1 !! pid = Some (mkPeerRecord (ip r) (port r) now)
  ∧ (∀ k, k ≠ pid → peers after.1 !! k = peers t !! k)
  ∧ size (peers after.1) = size (peers t)
  ∧ (∀ e, e ∈ listed after.1 ↔ e ∈ listed t).
Proof.
  intros Hr. unfold _handle_heartbeat, part. simpl. rewrite Hr. simpl.
  split; [done|]. split; [apply lookup_insert_eq|].
  split; [intros k Hk; by apply lookup_insert_ne|].
  split; [by apply map_size_insert_Some|].
  intros e. rewrite !elem_of_listed. simpl.
  destruct (decide (entry_peer_id e = pid)) as [->|Hne].
  - rewrite lookup_insert_eq, Hr. split; intros (r' & [= <-] & Hip & Hport); eauto.
  - by rewrite lookup_insert_ne.
Qed.

Lemma heartbeat_restamps_only_witness :
  let after := _handle_heartbeat two_peers 500 ["HEARTBEAT"; "bob"] in
  status after.2 = "success"
  ∧ peers after.1 !! "bob" = Some (mkPeerRecord "10.0.0.2" 6002 500)
  ∧ (∀ k, k ≠ "bob" → peers after.1 !! k = peers two_peers !! k)
  ∧ size (peers after.1) = size (peers two_peers)
  ∧ (∀ e, e ∈ listed after.1 ↔ e ∈ listed two_peers).
Proof.
  apply (heartbeat_restamps_only two_peers 500 "HEARTBEAT" "bob" []
           (mkPeerRecord "10.0.0.2" 6002 100)).
  reflexivity.
Defined.

(** X4. Registering an id the registry lacks and then unregistering it gives
    back the tracker as it was. *)
Theorem register_then_unregister
  (t : PeerTracker) (now : Z) (cmd cmd' pid ip' tok : string) (rest rest' : list string)
  (port' : Z) :
  peers t !! pid = None →
  Text.int tok = Ok port' →
  ∃ t1 reply,
    _handle_register t now (cmd :: pid :: ip' :: tok :: rest) = Ok (t1, reply)
    ∧ _handle_unregister t1 (cmd' :: pid :: rest')
      = (t, mkResponse "success" (Some "Peer unregistered successfully") None None).
Proof.
  intros Hnone Hint. unfold _handle_register, part.
  cbn [length Nat.ltb Nat.leb lookup list_lookup default]. simpl. rewrite Hint. simpl.
  eexists _, _. split; [reflexivity|].
  unfold _handle_unregister, part. simpl. rewrite lookup_insert_eq.
  unfold set_peers. simpl. rewrite delete_insert_id by done. by destruct t.
Qed.

Lemma register_then_unregister_witness :
  ∃ t1 reply,
    _handle_register two_peers 500 ["REGISTER"; "carol"; "10.0.0.3"; "6003"] = Ok (t1, reply)
    ∧ _handle_unregister t1 ["UNREGISTER"; "carol"]
      = (two_peers, mkResponse "success" (Some "Peer unregistered successfully") None None).
Proof.
  apply (register_then_unregister two_peers 500 "REGISTER" "UNREGISTER" "carol" "10.0.0.3"
           "6003" [] [] 6003); reflexivity.
Defined.

(** X5. Two sweeps in a row do what one sweep at the later of the two times
    does; in particular a second sweep at the same time changes nothing. *)
Theorem sweep_twice (t : PeerTracker) (now1 now2 : Z) :
  _cleanup_inactive_peers (_cleanup_inactive_peers t now1) now2
  = _cleanup_inactive_peers t (Z.max now1 now2).
Proof.
  assert (Hpeers : peers (_cleanup_inactive_peers (_cleanup_inactive_peers t now1) now2)
                   = peers (_cleanup_inactive_peers t (Z.max now1 now2))).
  { apply map_eq. intros k. apply option_eq. intros r.
    rewrite !sweep_lookup. rewrite sweep_timeout. split.
    - intros [[Hr H1] H2]. split; [done | lia].
    - intros [Hr Hmax]. split; [split; [done | lia] | lia]. }
  unfold _cleanup_inactive_peers, set_peers in *. simpl in *. by f_equal.
Qed.

(** After a sweep at [now] no record is older than the timeout. *)
Lemma sweep_leaves_only_fresh (t : PeerTracker) (now : Z) (k : string) (r : PeerRecord) :
  peers (_cleanup_inactive_peers t now) !! k = Some r →
  (now - last_seen r ≤ peer_timeout t)%Z ∧ peers t !! k = Some r.
Proof. intros Hr. apply sweep_lookup in Hr. tauto. Qed.

(** X6. A peer whose HEARTBEAT was handled at [now] is still registered,
    with the same address, after any sweep that runs no later than
    [now + timeout]. *)
Theorem heartbeat_survives_sweep
  (t : PeerTracker) (now later : Z) (cmd pid : string) (rest : list string) (r : PeerRecord) :
  peers t !! pid = Some r →
  (later - now ≤ peer_timeout t)%Z →
  peers (_cleanup_inactive_peers (_handle_heartbeat t now (cmd :: pid :: rest)).1 later) !! pid
  = Some (mkPeerRecord (ip r) (port r) now).
Proof.
  intros Hr Hlater. apply sweep_lookup.
  unfold _handle_heartbeat, part. simpl. rewrite Hr. simpl.
  split; [apply lookup_insert_eq | done].
Qed.

Lemma heartbeat_survives_sweep_witness :
  peers (_cleanup_inactive_peers (_handle_heartbeat two_peers 500 ["HEARTBEAT"; "alice"]).1 800)
    !! "alice"
  = Some (mkPeerRecord "10.0.0.1" 6001 500).
Proof.
  apply (heartbeat_survives_sweep two_peers 500 800 "HEARTBEAT" "alice" []
           (mkPeerRecord "10.0.0.1" 6001 0)); [reflexivity | simpl; lia].
Defined.

End TrackerOperations.

(** * Further properties of the connection handler *)

Section Connections.

Import PeerTracker.

(** The handlers never read the command word itself. *)
Lemma handlers_ignore_command_word (t : PeerTracker) (now : Z) (p0 p0' : string)
    (args : list string) :
  _handle_register t now (p0 :: args) = _handle_register t now (p0' :: args)
  ∧ _handle_unregister t (p0 :: args) = _handle_unregister t (p0' :: args)
  ∧ _handle_heartbeat t now (p0 :: args) = _handle_heartbeat t now (p0' :: args)
  ∧ _handle_get_peers t (p0 :: args) = _handle_get_peers t (p0' :: args).
Proof. done. Qed.

(** X7. Two payloads with the same arguments, whose command words differ in
    letter case only, and however their tokens are spaced, are handled
    alike: same registry afterwards, same reply. *)
Theorem command_word_case_and_spacing
  (t : PeerTracker) (now : Z) (data data' p0 p0' : string) (args : list string) :
  Text.split data = p0 :: args →
  Text.split data' = p0' :: args →
  Text.upper p0 = Text.upper p0' →
  _handle_client t now data = _handle_client t now data'.
Proof.
  intros Hdata Hdata' Hupper.
  assert (Hne : data ≠ "") by (intros ->; discriminate).
  assert (Hne' : data' ≠ "") by (intros ->; discriminate).
  rewrite !handle_client_nonempty by done.
  unfold dispatch. rewrite Hdata, Hdata', Hupper.
  destruct (handlers_ignore_command_word t now p0 p0' args) as (-> & -> & -> & ->).
  reflexivity.
Qed.

Lemma command_word_case_and_spacing_witness :
  _handle_client two_peers 500 "register carol 10.0.0.3   6003"
  = _handle_client two_peers 500 " REGISTER  carol 10.0.0.3 6003 ".
Proof.
  apply (command_word_case_and_spacing two_peers 500
           "register carol 10.0.0.3   6003" " REGISTER  carol 10.0.0.3 6003 "
           "register" "REGISTER" ["carol"; "10.0.0.3"; "6003"]); reflexivity.
Defined.

Lemma handle_client_timeout (t : PeerTracker) (now : Z) (data : string) :
  peer_timeout (_handle_client t now data).1 = peer_timeout t.
Proof.
  destruct (decide (data = "")) as [->|Hne]; [done|].
  rewrite handle_client_nonempty by done. rewrite dispatch_cases.
  destruct (command_word data) as [word|]; [|done].
  destruct (String.eqb word "REGISTER").
  { unfold _handle_register. destruct (length (Text.split data) <? 4)%nat; [done|].
    by destruct (Text.int (part (Text.split data) 3)). }
  destruct (String.eqb word "GET_PEERS"); [done|].
  destruct (String.eqb word "UNREGISTER").
  { unfold _handle_unregister. destruct (length (Text.split data) <? 2)%nat; [done|].
    by destruct (peers t !! part (Text.split data) 1). }
  destruct (String.eqb word "HEARTBEAT"); [|done].
  unfold _handle_heartbeat. destruct (length (Text.split data) <? 2)%nat; [done|].
  by destruct (peers t !! part (Text.split data) 1).
Qed.

(** X8. No request and no sweep changes the timeout: after any run it is
    what it was at the start (300 for a tracker started by [init]). *)
Theorem timeout_is_constant (t : PeerTracker) (events : list (Z * Event)) :
  peer_timeout (run t events) = peer_timeout t.
Proof.
  revert t. induction events as [|[now ev] events IH]; intros t; [done|].
  unfold run in *. cbn [foldl]. rewrite IH.
  destruct ev; [apply handle_client_timeout | done].
Qed.

(** X9. The registry changes only when a REGISTER, UNREGISTER or HEARTBEAT is
    answered with a success: a request that gets an error reply, a
    GET_PEERS, or a read that gets no reply leaves the tracker as it
    was. *)
Theorem registry_changes_only_on_success
  (t t' : PeerTracker) (now : Z) (data : string) (reply : option Response) :
  _handle_client t now data = (t', reply) →
  t' ≠ t →
  (∃ r, reply = Some r ∧ status r = "success")
  ∧ (command_word data = Some "REGISTER" ∨ command_word data = Some "UNREGISTER"
     ∨ command_word data = Some "HEARTBEAT").
Proof.
  destruct (decide (data = "")) as [->|Hne]; [by intros [= <- <-]|].
  rewrite handle_client_nonempty by done. rewrite dispatch_cases.
  destruct (command_word data) as [word|]; [|by intros [= <- <-]].
  destruct (String.eqb_spec word "REGISTER") as [->|_].
  { unfold _handle_register. destruct (length (Text.split data) <? 4)%nat;
      [by intros [= <- <-]|].
    destruct (Text.int (part (Text.split data) 3)); simpl; [|by intros [= <- <-]].
    intros [= <- <-] _. split; [eauto | by left]. }
  destruct (String.eqb_spec word "GET_PEERS") as [->|_]; [by intros [= <- <-]|].
  destruct (String.eqb_spec word "UNREGISTER") as [->|_].
  { unfold _handle_unregister. destruct (length (Text.split data) <? 2)%nat;
      [by intros [= <- <-]|].
    destruct (peers t !! part (Text.split data) 1); [|by intros [= <- <-]].
    intros [= <- <-] _. split; [eauto | by right; left]. }
  destruct (String.eqb_spec word "HEARTBEAT") as [->|_]; [|by intros [= <- <-]].
  unfold _handle_heartbeat. destruct (length (Text.split data) <? 2)%nat;
    [by intros [= <- <-]|].
  destruct (peers t !! part (Text.split data) 1); [|by intros [= <- <-]].
  intros [= <- <-] _. split; [eauto | by right; right].
Qed.

Lemma registry_changes_only_on_success_witness :
  (∃ r, (_handle_client two_peers 500 "UNREGISTER bob").2 = Some r ∧ status r = "success")
  ∧ (command_word "UNREGISTER bob" = Some "REGISTER"
     ∨ command_word "UNREGISTER bob" = Some "UNREGISTER"
     ∨ command_word "UNREGISTER bob" = Some "HEARTBEAT").
Proof.
  apply (registry_changes_only_on_success two_peers
           (_handle_client two_peers 500 "UNREGISTER bob").1 500 "UNREGISTER bob").
  - reflexivity.
  - intros Heq. apply (f_equal (λ t, peers t !! "bob")) in Heq.
    vm_compute in Heq. discriminate.
Defined.

(** X10. Only REGISTER adds an id, and only for the id it names: after any
    request, an id that is in the registry and was not there before is
    the second token of a REGISTER. *)
Theorem only_register_adds
  (t : PeerTracker) (now : Z) (data : string) (k : string) :
  peers t !! k = None →
  is_Some (peers (_handle_client t now data).1 !! k) →
  command_word data = Some "REGISTER" ∧ Text.split data !! 1%nat = Some k.
Proof.
  intros Hnone.
  destruct (decide (data = "")) as [->|Hne]; [simpl; rewrite Hnone; by intros [? ?]|].
  rewrite handle_client_nonempty by done. rewrite dispatch_cases.
  assert (Hno : ¬ is_Some (peers t !! k)) by (rewrite Hnone; by intros [? ?]).
  destruct (command_word data) as [word|]; [|done].
  destruct (String.eqb_spec word "REGISTER") as [->|_].
  { unfold _handle_register.
    destruct (length (Text.split data) <? 4)%nat eqn:Hlen; [done|].
    destruct (Text.int (part (Text.split data) 3)); simpl; [|done].
    intros Hsome. split; [done|].
    destruct (decide (part (Text.split data) 1 = k)) as [<-|Hk].
    - unfold part. apply Nat.ltb_ge in Hlen.
      destruct (lookup_lt_is_Some_2 (Text.split data) 1%nat ltac:(lia)) as [p Hp].
      by rewrite Hp.
    - rewrite lookup_insert_ne in Hsome by done. done. }
  destruct (String.eqb_spec word "GET_PEERS") as [->|_]; [done|].
  destruct (String.eqb_spec word "UNREGISTER") as [->|_].
  { unfold _handle_unregister. destruct (length (Text.split data) <? 2)%nat; [done|].
    destruct (peers t !! part (Text.split data) 1); [|done]. simpl.
    intros [r Hr]. apply lookup_delete_Some in Hr as [_ Hr]. rewrite Hnone in Hr. done. }
  destruct (String.eqb_spec word "HEARTBEAT") as [->|_]; [|done].
  unfold _handle_heartbeat. destruct (length (Text.split data) <? 2)%nat; [done|].
  destruct (peers t !! part (Text.split data) 1) eqn:Hp; [|done]. simpl.
  destruct (decide (part (Text.split data) 1 = k)) as [<-|Hk]; [congruence|].
  rewrite lookup_insert_ne by done. done.
Qed.

Lemma only_register_adds_witness :
  command_word "register carol 10.0.0.3 6003" = Some "REGISTER"
  ∧ Text.split "register carol 10.0.0.3 6003" !! 1%nat = Some "carol".
Proof.
  apply (only_register_adds two_peers 500 "register carol 10.0.0.3 6003" "carol").
  - reflexivity.
  - exists (mkPeerRecord "10.0.0.3" 6003 500). vm_compute. reflexivity.
Defined.

End Connections.

(** * Properties of the text operations *)

Section Words.

Lemma no_space_chars (l : list ascii) :
  Str.no_space (string_of_list_ascii l) = forallb Str.not_space l.
Proof. induction l as [|a l IH]; simpl; [done|]. by rewrite IH. Qed.

Lemma forallb_rev {A : Type} (f : A → bool) (l : list A) :
  forallb f (rev l) = forallb f l.
Proof.
  induction l as [|a l IH]; simpl; [done|].
  rewrite forallb_app, IH. simpl. rewrite andb_true_r. apply andb_comm.
Qed.

Lemma emit_is_word (a : ascii) (cur : list ascii) :
  forallb Str.not_space (a :: cur) = true →
  Str.is_word (string_of_list_ascii (rev (a :: cur))) = true.
Proof.
  intros Hcur. unfold Str.is_word. rewrite no_space_chars, forallb_rev, Hcur.
  rewrite andb_true_r. simpl. destruct (rev cur); reflexivity.
Qed.

Lemma split_aux_words (s : string) (cur : list ascii) (tok : string) :
  forallb Str.not_space cur = true →
  tok ∈ Text.split_aux cur s → Str.is_word tok = true.
Proof.
  revert cur. induction s as [|a s IH]; intros cur Hcur; simpl.
  - destruct cur as [|c cur]; [intros Htok; by apply elem_of_nil in Htok|].
    intros Htok. apply list_elem_of_singleton in Htok as ->. by apply emit_is_word.
  - destruct (Text.is_space a) eqn:Ha.
    + destruct cur as [|c cur]; [by apply IH|].
      intros Htok. apply elem_of_cons in Htok as [->|Htok];
        [by apply emit_is_word | exact (IH [] eq_refl Htok)].
    + apply IH. simpl. unfold Str.not_space at 1. by rewrite Ha.
Qed.

(** X11. Every token [split] gives is a word: not empty and free of
    whitespace. *)
Theorem split_gives_words (s tok : string) :
  tok ∈ Text.split s → Str.is_word tok = true.
Proof. by apply split_aux_words. Qed.

Lemma split_gives_words_witness : Str.is_word "alice" = true.
Proof.
  apply (split_gives_words " REGISTER alice  10.0.0.1 6001" "alice").
  vm_compute. right. left.
Defined.

Lemma split_aux_lstrip (s : string) :
  Text.split_aux [] (Str.lstrip s) = Text.split_aux [] s.
Proof.
  induction s as [|a s IH]; [done|]. cbn [Str.lstrip Text.split_aux].
  destruct (Text.is_space a) eqn:Ha; [exact IH|]. simpl. by rewrite Ha.
Qed.

Lemma split_aux_rstrip (s : string) (cur : list ascii) :
  Text.split_aux cur (Str.rstrip s) = Text.split_aux cur s.
Proof.
  revert cur. induction s as [|a s IH]; intros cur; [done|]. cbn [Str.rstrip].
  destruct (Text.is_space a) eqn:Ha; simpl.
  - destruct (String.eqb_spec (Str.rstrip s) "") as [Hr|Hr]; simpl; rewrite Ha.
    + rewrite <- (IH []), Hr. simpl. by destruct cur.
    + destruct cur; by rewrite IH.
  - rewrite Ha. apply IH.
Qed.

(** X12. Stripping a payload before splitting it changes nothing:
    [data.strip().split()] gives the tokens [data.split()] gives. *)
Theorem split_after_strip (s : string) :
  Text.split (Str.strip s) = Text.split s.
Proof. unfold Text.split, Str.strip. by rewrite split_aux_rstrip, split_aux_lstrip. Qed.

Lemma append_cons (a : ascii) (w s : string) : String a w ++ s = String a (w ++ s).
Proof. reflexivity. Qed.

Lemma append_empty (w : string) : w ++ "" = w.
Proof. induction w as [|a w IH]; [done|]. by rewrite append_cons, IH. Qed.

Lemma split_aux_over_word (w : string) (cur : list ascii) (s : string) :
  Str.no_space w = true →
  Text.split_aux cur (w ++ s)
  = Text.split_aux (rev (list_ascii_of_string w) ++ cur)%list s.
Proof.
  revert cur. induction w as [|a w IH]; intros cur Hw; [done|].
  simpl in Hw. apply andb_true_iff in Hw as [Ha Hw]. apply negb_true_iff in Ha.
  rewrite append_cons. cbn [Text.split_aux list_ascii_of_string rev].
  rewrite Ha, IH by done. by rewrite <- app_assoc.
Qed.

Lemma word_chars (w : string) :
  Str.is_word w = true →
  ∃ a l, rev (list_ascii_of_string w) = a :: l
         ∧ string_of_list_ascii (rev (a :: l)) = w.
Proof.
  intros Hw. destruct (rev (list_ascii_of_string w)) as [|a l] eqn:E.
  - apply (f_equal (@rev ascii)) in E. rewrite rev_involutive in E. simpl in E.
    destruct w; [done | discriminate].
  - exists a, l. split; [done|].
    by rewrite <- E, rev_involutive, string_of_list_ascii_of_string.
Qed.

Lemma split_word_then_space (w s : string) :
  Str.is_word w = true →
  Text.split_aux [] (w ++ String " "%char s) = w :: Text.split_aux [] s.
Proof.
  intros Hw. pose proof Hw as [_ Hns]%andb_true_iff.
  rewrite split_aux_over_word by done. rewrite app_nil_r.
  destruct (word_chars w Hw) as (a & l & -> & Hback). simpl in *. by rewrite Hback.
Qed.

Lemma split_word_alone (w : string) :
  Str.is_word w = true → Text.split_aux [] w = [w].
Proof.
  intros Hw. pose proof Hw as [_ Hns]%andb_true_iff.
  pose proof (split_aux_over_word w [] "" Hns) as Hsplit.
  rewrite app_nil_r in Hsplit.
  rewrite append_empty in Hsplit.
  rewrite Hsplit. destruct (word_chars w Hw) as (a & l & -> & Hback).
  simpl in *. by rewrite Hback.
Qed.

(** X13. Words joined by single spaces split back into the same words. *)
Theorem split_join (words : list string) :
  Forall (λ w, Str.is_word w = true) words →
  Text.split (Str.join words) = words.
Proof.
  unfold Text.split. induction 1 as [|w rest Hw Hrest IH]; [done|].
  destruct rest as [|w' rest]; [by apply split_word_alone|].
  change (Str.join (w :: w' :: rest)) with (w ++ String " "%char (Str.join (w' :: rest))).
  by rewrite split_word_then_space, IH.
Qed.

Lemma split_join_witness :
  Text.split (Str.join ["HEARTBEAT"; "alice"]) = ["HEARTBEAT"; "alice"].
Proof. apply (split_join ["HEARTBEAT"; "alice"]). by repeat constructor. Defined.

End Words.

Section Decimal.

Lemma digit_of_digit_char (d : Z) :
  (0 ≤ d < 10)%Z → Text.digit_of (Str.digit_char d) = Some d.
Proof.
  intros Hd.
  assert (d = 0 ∨ d = 1 ∨ d = 2 ∨ d = 3 ∨ d = 4 ∨ d = 5 ∨ d = 6 ∨ d = 7 ∨ d = 8 ∨ d = 9)%Z
    as Hcases by lia.
  repeat (destruct Hcases as [->|Hcases]; [reflexivity|]). by subst.
Qed.

Lemma digit_char_not_space (d : Z) :
  (0 ≤ d < 10)%Z → Text.is_space (Str.digit_char d) = false.
Proof.
  intros Hd.
  assert (d = 0 ∨ d = 1 ∨ d = 2 ∨ d = 3 ∨ d = 4 ∨ d = 5 ∨ d = 6 ∨ d = 7 ∨ d = 8 ∨ d = 9)%Z
    as Hcases by lia.
  repeat (destruct Hcases as [->|Hcases]; [reflexivity|]). by subst.
Qed.

(** Reading back the digits [str_digits] wrote. *)
Lemma int_digits_str_digits (fuel : nat) (n : Z) (acc : string) :
  (0 ≤ n < 10 ^ Z.of_nat (S fuel))%Z →
  ∃ k, (0 ≤ k)%Z ∧ ∀ a b,
    Text.int_digits a b (Str.str_digits (S fuel) n acc)
    = Text.int_digits (a * 10 ^ k + n) true acc.
Proof.
  revert n acc. induction fuel as [|fuel IH]; intros n acc Hn.
  - exists 1%Z. split; [lia|]. intros a b. cbn [Str.str_digits].
    change (10 ^ Z.of_nat 1)%Z with 10%Z in Hn.
    destruct (Z.ltb_spec n 10) as [_|?]; [|lia].
    rewrite Z.mod_small by lia. cbn [Text.int_digits].
    rewrite digit_of_digit_char by lia. f_equal. lia.
  - cbn [Str.str_digits]. destruct (Z.ltb_spec n 10) as [Hsmall|Hbig].
    + exists 1%Z. split; [lia|]. intros a b.
      rewrite Z.mod_small by lia. cbn [Text.int_digits].
      rewrite digit_of_digit_char by lia. f_equal. lia.
    + destruct (IH (n / 10)%Z (String (Str.digit_char (n mod 10)) acc)) as (k & Hk & Hread).
      { split; [apply Z.div_pos; lia|].
        apply Z.div_lt_upper_bound; [lia|].
        replace (Z.of_nat (S (S fuel))) with (Z.succ (Z.of_nat (S fuel))) in Hn by lia.
        rewrite Z.pow_succ_r in Hn by lia. lia. }
      exists (k + 1)%Z. split; [lia|]. intros a b. rewrite Hread.
      cbn [Text.int_digits].
      rewrite digit_of_digit_char by (apply Z.mod_pos_bound; lia).
      f_equal. rewrite Z.pow_add_r by lia.
      pose proof (Z.div_mod n 10 ltac:(lia)). lia.
Qed.

Lemma log2_fuel (n : Z) :
  (0 ≤ n)%Z → (0 ≤ n < 10 ^ Z.of_nat (S (Z.to_nat (Z.log2 n))))%Z.
Proof.
  intros Hn. split; [done|].
  pose proof (Z.log2_nonneg n) as Hlog.
  replace (Z.of_nat (S (Z.to_nat (Z.log2 n)))) with (Z.succ (Z.log2 n)) by lia.
  destruct (decide (n = 0)) as [->|Hpos]; [done|].
  pose proof (Z.log2_spec n ltac:(lia)) as [_ Hlt].
  eapply Z.lt_le_trans; [exact Hlt|].
  apply Z.pow_le_mono_l. lia.
Qed.

Lemma str_digits_keeps_head (fuel : nat) (n : Z) (acc : string) :
  Str.starts_with_digit acc = true →
  Str.starts_with_digit (Str.str_digits fuel n acc) = true.
Proof.
  revert n acc. induction fuel as [|fuel IH]; intros n acc Hacc; [done|].
  cbn [Str.str_digits]. assert (Hhead : Str.starts_with_digit
                                         (String (Str.digit_char (n mod 10)) acc) = true).
  { unfold Str.starts_with_digit.
    by rewrite digit_of_digit_char by (apply Z.mod_pos_bound; lia). }
  destruct (n <? 10)%Z; [done | by apply IH].
Qed.

Lemma str_digits_head (fuel : nat) (n : Z) (acc : string) :
  Str.starts_with_digit (Str.str_digits (S fuel) n acc) = true.
Proof.
  cbn [Str.str_digits]. assert (Hhead : Str.starts_with_digit
                                         (String (Str.digit_char (n mod 10)) acc) = true).
  { unfold Str.starts_with_digit.
    by rewrite digit_of_digit_char by (apply Z.mod_pos_bound; lia). }
  destruct (n <? 10)%Z; [done | by apply str_digits_keeps_head].
Qed.

(** A token that begins with a digit carries no sign for [int]. *)
Lemma int_without_sign (s : string) :
  Str.starts_with_digit s = true →
  Text.int s = match Text.int_digits 0 false s with
               | Some n => Ok n
               | None => Raise (ValueError s)
               end.
Proof.
  destruct s as [|c s]; [discriminate|]. intros Hhead.
  destruct c as [[] [] [] [] [] [] [] []]; first [reflexivity | cbv in Hhead; discriminate].
Qed.

Lemma int_of_str (n : Z) : Text.int (Str.str n) = Ok n.
Proof.
  unfold Str.str. destruct (Z.ltb_spec n 0) as [Hneg|Hpos].
  - destruct (int_digits_str_digits (Z.to_nat (Z.log2 (- n))) (- n) "")
      as (k & _ & Hread); [apply log2_fuel; lia|].
    unfold Text.int. cbn [fmap option_fmap option_map]. rewrite Hread.
    cbn [Text.int_digits]. simpl. f_equal; lia.
  - destruct (int_digits_str_digits (Z.to_nat (Z.log2 n)) n "")
      as (k & _ & Hread); [by apply log2_fuel|].
    rewrite int_without_sign by apply str_digits_head.
    rewrite Hread. cbn [Text.int_digits]. f_equal; lia.
Qed.

Lemma str_digits_no_space (fuel : nat) (n : Z) (acc : string) :
  Str.no_space acc = true → Str.no_space (Str.str_digits fuel n acc) = true.
Proof.
  revert n acc. induction fuel as [|fuel IH]; intros n acc Hacc; [done|].
  cbn [Str.str_digits].
  assert (Hacc' : Str.no_space (String (Str.digit_char (n mod 10)) acc) = true).
  { cbn [Str.no_space].
    by rewrite digit_char_not_space, Hacc by (apply Z.mod_pos_bound; lia). }
  destruct (n <? 10)%Z; [done | by apply IH].
Qed.

(** [str] of an integer is one word. *)
Lemma str_is_word (n : Z) : Str.is_word (Str.str n) = true.
Proof.
  unfold Str.str. destruct (n <? 0)%Z.
  - unfold Str.is_word. cbn [String.eqb negb andb Str.no_space].
    change (Text.is_space "-"%char) with false. cbn [String.eqb negb andb].
    by apply str_digits_no_space.
  - pose proof (str_digits_head (Z.to_nat (Z.log2 n)) n "") as Hhead.
    pose proof (str_digits_no_space (S (Z.to_nat (Z.log2 n))) n "" eq_refl) as Hns.
    unfold Str.is_word. rewrite Hns, andb_true_r.
    by destruct (Str.str_digits _ n "").
Qed.

(** X14. [int] reads back what [str] writes, for every integer: the port a
    client formats into its REGISTER command is the port the tracker
    parses out of it. What [str] writes is one word, and two different
    integers are never written alike. *)
Theorem int_str (n : Z) :
  Text.int (Str.str n) = Ok n
  ∧ Str.is_word (Str.str n) = true
  ∧ ∀ m, Str.str n = Str.str m → n = m.
Proof.
  split; [apply int_of_str|]. split; [apply str_is_word|].
  intros m Hsame. apply (f_equal Text.int) in Hsame.
  rewrite !int_of_str in Hsame. congruence.
Qed.

End Decimal.

(** * The client's commands, as the tracker handles them *)

Section WireProtocol.

Import PeerTracker.

Lemma register_command_words (c : ChatClient) (local_ip : string) :
  Wire.register_command c local_ip
  = Str.join ["REGISTER"; peer_id c; local_ip; Str.str (listen_port c)].
Proof. reflexivity. Qed.

Lemma heartbeat_command_words (c : ChatClient) :
  Wire.heartbeat_command c = Str.join ["HEARTBEAT"; peer_id c].
Proof. reflexivity. Qed.

Lemma unregister_command_words (c : ChatClient) :
  Wire.unregister_command c = Str.join ["UNREGISTER"; peer_id c].
Proof. reflexivity. Qed.

Lemma split_register_command (c : ChatClient) (local_ip : string) :
  Str.is_word (peer_id c) = true → Str.is_word local_ip = true →
  Text.split (Wire.register_command c local_ip)
  = ["REGISTER"; peer_id c; local_ip; Str.str (listen_port c)].
Proof.
  intros Hid Hip. rewrite register_command_words. unfold Text.split.
  change (Str.join ["REGISTER"; peer_id c; local_ip; Str.str (listen_port c)])
    with ("REGISTER" ++ String " "%char
            (peer_id c ++ String " "%char
               (local_ip ++ String " "%char (Str.str (listen_port c))))).
  rewrite !split_word_then_space by done.
  by rewrite split_word_alone by apply str_is_word.
Qed.

Lemma split_heartbeat_command (c : ChatClient) :
  Str.is_word (peer_id c) = true →
  Text.split (Wire.heartbeat_command c) = ["HEARTBEAT"; peer_id c].
Proof.
  intros Hid. rewrite heartbeat_command_words. unfold Text.split.
  change (Str.join ["HEARTBEAT"; peer_id c]) with ("HEARTBEAT" ++ String " "%char (peer_id c)).
  rewrite split_word_then_space by done. by rewrite split_word_alone.
Qed.

Lemma split_unregister_command (c : ChatClient) :
  Str.is_word (peer_id c) = true →
  Text.split (Wire.unregister_command c) = ["UNREGISTER"; peer_id c].
Proof.
  intros Hid. rewrite unregister_command_words. unfold Text.split.
  change (Str.join ["UNREGISTER"; peer_id c])
    with ("UNREGISTER" ++ String " "%char (peer_id c)).
  rewrite split_word_then_space by done. by rewrite split_word_alone.
Qed.

Lemma handle_client_of_tokens (t : PeerTracker) (now : Z) (data p0 : string)
    (args : list string) :
  Text.split data = p0 :: args →
  _handle_client t now data =
    match dispatch t now data with
    | Ok (t', r) => (t', Some r)
    | Raise e => (t, Some (error_response (exn_str e)))
    end.
Proof. intros Hsplit. apply handle_client_nonempty. intros ->. discriminate. Qed.

(** How the tracker handles the client's REGISTER command. *)
Lemma register_command_handled (t : PeerTracker) (now : Z) (c : ChatClient)
    (local_ip : string) :
  Str.is_word (peer_id c) = true →
  Str.is_word local_ip = true →
  _handle_client t now (Wire.register_command c local_ip)
  = (set_peers t (<[peer_id c := mkPeerRecord local_ip (listen_port c) now]> (peers t)),
     Some (mkResponse "success" (Some "Peer registered successfully") None
             (Some (size (<[peer_id c := mkPeerRecord local_ip (listen_port c) now]>
                            (peers t)))))).
Proof.
  intros Hid Hip.
  pose proof (split_register_command c local_ip Hid Hip) as Hsplit.
  rewrite (handle_client_of_tokens _ _ _ _ _ Hsplit). unfold dispatch. rewrite Hsplit.
  change (Text.upper "REGISTER") with "REGISTER". cbn [String.eqb Ascii.eqb Bool.eqb].
  unfold _handle_register, part.
  cbn [length Nat.ltb Nat.leb lookup list_lookup default from_option]. unfold id.
  by rewrite int_of_str.
Qed.

(** X15. The REGISTER command a client builds from its id, the address of
    its host and its listening port is accepted by the tracker whenever
    the id and the address are words: the registry then holds exactly
    that address and port under that id, stamped [now], the reply is a
    success, and [_register_with_tracker] returns [True]. *)
Theorem client_registration_is_accepted
  (t : PeerTracker) (now : Z) (c : ChatClient) (local_ip : string) :
  Str.is_word (peer_id c) = true →
  Str.is_word local_ip = true →
  let after := _handle_client t now (Wire.register_command c local_ip) in
  peers after.1 = <[peer_id c := mkPeerRecord local_ip (listen_port c) now]> (peers t)
  ∧ after.2 = Some (mkResponse "success" (Some "Peer registered successfully") None
                      (Some (size (peers after.1))))
  ∧ Wire._register_with_tracker c local_ip (Wire.served_by t now) = true.
Proof.
  intros Hid Hip. cbv zeta.
  unfold Wire._register_with_tracker, Wire.served_by.
  rewrite (register_command_handled t now c local_ip Hid Hip). by simpl.
Qed.

Lemma client_registration_is_accepted_witness :
  let after := _handle_client two_peers 500 (Wire.register_command alice "10.0.0.9") in
  peers after.1 = <["alice" := mkPeerRecord "10.0.0.9" 6001 500]> (peers two_peers)
  ∧ after.2 = Some (mkResponse "success" (Some "Peer registered successfully") None
                      (Some (size (peers after.1))))
  ∧ Wire._register_with_tracker alice "10.0.0.9" (Wire.served_by two_peers 500) = true.
Proof.
  apply (client_registration_is_accepted two_peers 500 alice "10.0.0.9"); reflexivity.
Defined.

(** An id with a space in it is not registered under that id: the
    tracker reads its first word as the id and the rest as the address. *)
Example registration_of_a_spaced_id :
  let c := mkChatClient "al ice" 6001 ∅ ∅ [] [] in
  _handle_client PeerTracker.init 500 (Wire.register_command c "10.0.0.9")
  = (PeerTracker.init,
     Some (error_response "invalid literal for int() with base 10: '10.0.0.9'")).
Proof. vm_compute. reflexivity. Qed.

(** X16. A whole session of a client whose id and address are words, on a
    tracker that does not know the id: REGISTER, then HEARTBEAT, then
    UNREGISTER, at any three times. The heartbeat finds the record and
    restamps it, and after the UNREGISTER the tracker is as it was before
    the session. *)
Theorem client_session_round_trip
  (t : PeerTracker) (n1 n2 n3 : Z) (c : ChatClient) (local_ip : string) :
  Str.is_word (peer_id c) = true →
  Str.is_word local_ip = true →
  peers t !! peer_id c = None →
  peers (run t [(n1, Request (Wire.register_command c local_ip));
                (n2, Request (Wire.heartbeat_command c))]) !! peer_id c
  = Some (mkPeerRecord local_ip (listen_port c) n2)
  ∧ run t [(n1, Request (Wire.register_command c local_ip));
           (n2, Request (Wire.heartbeat_command c));
           (n3, Request (Wire.unregister_command c))] = t.
Proof.
  intros Hid Hip Hnone.
  pose proof (f_equal (λ p, peers p.1) (register_command_handled t n1 c local_ip Hid Hip))
    as Hreg.
  cbn [fst peers set_peers] in Hreg.
  remember (_handle_client t n1 (Wire.register_command c local_ip)).1 as t1 eqn:Ht1.
  assert (Htimeout : peer_timeout t1 = peer_timeout t)
    by (subst t1; apply handle_client_timeout).
  assert (Hstep1 : step t (n1, Request (Wire.register_command c local_ip)) = t1)
    by (by subst t1).
  assert (Hstep2 : step t1 (n2, Request (Wire.heartbeat_command c))
                   = set_peers t1 (<[peer_id c := mkPeerRecord local_ip (listen_port c) n2]>
                                     (peers t1))).
  { unfold step. cbn [fst snd].
    pose proof (split_heartbeat_command c Hid) as Hsplit.
    rewrite (handle_client_of_tokens _ _ _ _ _ Hsplit). unfold dispatch. rewrite Hsplit.
    change (Text.upper "HEARTBEAT") with "HEARTBEAT". cbn [String.eqb Ascii.eqb Bool.eqb].
    unfold _handle_heartbeat, part.
    cbn [length Nat.ltb Nat.leb lookup list_lookup default from_option]. unfold id.
    by rewrite Hreg, lookup_insert_eq. }
  assert (Hstep3 : step (set_peers t1 (<[peer_id c := mkPeerRecord local_ip (listen_port c) n2]>
                                         (peers t1)))
                        (n3, Request (Wire.unregister_command c)) = t).
  { unfold step. cbn [fst snd].
    pose proof (split_unregister_command c Hid) as Hsplit.
    rewrite (handle_client_of_tokens _ _ _ _ _ Hsplit). unfold dispatch. rewrite Hsplit.
    change (Text.upper "UNREGISTER") with "UNREGISTER". cbn [String.eqb Ascii.eqb Bool.eqb].
    unfold _handle_unregister, part.
    cbn [length Nat.ltb Nat.leb lookup list_lookup default from_option]. unfold id.
    cbn [peers set_peers]. rewrite lookup_insert_eq. cbn [fst].
    unfold set_peers. cbn [peers peer_timeout].
    rewrite delete_insert_eq, Hreg, delete_insert_id by done.
    rewrite Htimeout. by destruct t. }
  unfold run. cbn [foldl]. rewrite Hstep1, Hstep2. split; [|exact Hstep3].
  cbn [peers set_peers]. apply lookup_insert_eq.
Qed.

Lemma client_session_round_trip_witness :
  peers (run PeerTracker.init
           [(10, Request (Wire.register_command alice "10.0.0.9"));
            (70, Request (Wire.heartbeat_command alice))]%Z) !! "alice"
  = Some (mkPeerRecord "10.0.0.9" 6001 70)
  ∧ run PeerTracker.init
      [(10, Request (Wire.register_command alice "10.0.0.9"));
       (70, Request (Wire.heartbeat_command alice));
       (130, Request (Wire.unregister_command alice))]%Z = PeerTracker.init.
Proof.
  apply (client_session_round_trip PeerTracker.init 10 70 130 alice "10.0.0.9"); reflexivity.
Defined.

End WireProtocol.

(** * Discovery *)

Section Discovery.

Import ChatClient.

Lemma store_peers_self (self : string) (l : list PeerEntry) (info : gmap string PeerInfo) :
  foldl (store_peer self) info l !! self = info !! self.
Proof.
  revert info. induction l as [|x l IH]; intros info; cbn [foldl]; [done|].
  rewrite IH, store_peer_lookup. rewrite decide_False; [done|]. by intros [_ ?].
Qed.

(** The cache after a refresh on the tracker's listing, key by key. *)
Lemma refresh_lookup (c : ChatClient) (t : PeerTracker) (parts : list string) (k : string) :
  peer_info (_update_peer_list c (Ok (PeerTracker._handle_get_peers t parts).2)) !! k
  = if decide (k = peer_id c) then peer_info c !! k
    else match peers t !! k with
         | Some r => Some (mkPeerInfo (ip r) (port r))
         | None => peer_info c !! k
         end.
Proof.
  change (peer_info (_update_peer_list c (Ok (PeerTracker._handle_get_peers t parts).2)))
    with (foldl (store_peer (peer_id c)) (peer_info c) (listed t)).
  destruct (decide (k = peer_id c)) as [->|Hne]; [apply store_peers_self|].
  destruct (peers t !! k) as [r|] eqn:Hr.
  - apply (store_peers_stored (peer_id c) (listed t) (peer_info c)
             (mkPeerEntry k (ip r) (port r))); [apply NoDup_listed_ids | | done].
    apply elem_of_listed. by exists r.
  - apply store_peers_untouched. rewrite elem_of_listed_ids, Hr. by intros [? ?].
Qed.

(** X17. What a refresh makes of the cache, exactly: the tracker's registry
    without the client's own id, each record cut down to its ip and
    port, laid over the cache as it was. Entries of peers the tracker
    still lists are replaced, all others stay. *)
Theorem refresh_cache_equation (c : ChatClient) (t : PeerTracker) (parts : list string) :
  peer_info (_update_peer_list c (Ok (PeerTracker._handle_get_peers t parts).2))
  = ((λ r, mkPeerInfo (ip r) (port r)) <$> delete (peer_id c) (peers t)) ∪ peer_info c.
Proof.
  apply map_eq. intros k. rewrite refresh_lookup.
  destruct (decide (k = peer_id c)) as [->|Hne].
  - rewrite lookup_union_r; [done|]. by rewrite lookup_fmap, lookup_delete_eq.
  - destruct (peers t !! k) as [r|] eqn:Hr.
    + symmetry. apply lookup_union_Some_l. by rewrite lookup_fmap, lookup_delete_ne, Hr.
    + rewrite lookup_union_r; [done|]. by rewrite lookup_fmap, lookup_delete_ne, Hr.
Qed.

Lemma served_get_peers (t : PeerTracker) (now : Z) :
  Wire.served_by t now Wire.get_peers_command
  = Ok (PeerTracker._handle_get_peers t ["GET_PEERS"]).2.
Proof. reflexivity. Qed.

(** X18. Two clients with different ids (ids and addresses being words)
    register with a new tracker; the first then refreshes an empty
    cache. Its cache holds the second client, at the address and port
    the second client registered, and nothing else. *)
Theorem discovery_of_one_peer
  (a b : ChatClient) (ip_a ip_b : string) (n1 n2 n3 : Z) :
  Str.is_word (peer_id a) = true → Str.is_word ip_a = true →
  Str.is_word (peer_id b) = true → Str.is_word ip_b = true →
  peer_id a ≠ peer_id b →
  peer_info a = ∅ →
  let t := run PeerTracker.init [(n1, Request (Wire.register_command a ip_a));
                                 (n2, Request (Wire.register_command b ip_b))] in
  size (peers t) = 2%nat
  ∧ peer_info (_update_peer_list a (Wire.served_by t n3 Wire.get_peers_command))
    = {[peer_id b := mkPeerInfo ip_b (listen_port b)]}.
Proof.
  intros Ha Hipa Hb Hipb Hne Hempty t.
  pose proof (f_equal (λ p, peers p.1)
                (register_command_handled PeerTracker.init n1 a ip_a Ha Hipa)) as Hreg1.
  cbn [fst peers PeerTracker.set_peers] in Hreg1.
  remember (PeerTracker._handle_client PeerTracker.init n1 (Wire.register_command a ip_a)).1
    as t1 eqn:Ht1.
  pose proof (f_equal (λ p, peers p.1) (register_command_handled t1 n2 b ip_b Hb Hipb))
    as Hreg2.
  cbn [fst peers PeerTracker.set_peers] in Hreg2.
  assert (Ht : peers t = <[peer_id b := mkPeerRecord ip_b (listen_port b) n2]>
                           (<[peer_id a := mkPeerRecord ip_a (listen_port a) n1]> ∅)).
  { subst t. unfold run. cbn [foldl]. unfold step. cbn [fst snd].
    rewrite <- Ht1, Hreg2, Hreg1. done. }
  split.
  - rewrite Ht. rewrite map_size_insert_None.
    + by rewrite map_size_insert_None, map_size_empty.
    + rewrite lookup_insert_ne by done. apply lookup_empty.
  - rewrite served_get_peers. apply map_eq. intros k.
    rewrite refresh_lookup, Hempty, Ht, lookup_empty.
    destruct (decide (k = peer_id a)) as [->|Hka].
    + by rewrite lookup_singleton_ne.
    + destruct (decide (k = peer_id b)) as [->|Hkb].
      * by rewrite lookup_insert_eq, lookup_singleton_eq.
      * by rewrite !lookup_insert_ne, lookup_empty, lookup_singleton_ne by done.
Qed.

Lemma discovery_of_one_peer_witness :
  let bob := mkChatClient "bob" 6002 ∅ ∅ [] [] in
  let t := run PeerTracker.init
             [(10, Request (Wire.register_command (init "alice" 6001) "10.0.0.1"));
              (20, Request (Wire.register_command bob "10.0.0.2"))]%Z in
  size (peers t) = 2%nat
  ∧ peer_info (_update_peer_list (init "alice" 6001)
                 (Wire.served_by t 30 Wire.get_peers_command))
    = {["bob" := mkPeerInfo "10.0.0.2" 6002]}.
Proof.
  apply (discovery_of_one_peer (init "alice" 6001) (mkChatClient "bob" 6002 ∅ ∅ [] [])
           "10.0.0.1" "10.0.0.2" 10 20 30); try reflexivity. discriminate.
Defined.

End Discovery.

(** * Outbound connections *)

Section Outbound.

Import ChatClient.

Variable json_dumps : json → string.
Variable net : Network.

(** X19. A direct message to a peer that is neither in the cache nor
    connected changes nothing and touches the network not at all. *)
Theorem send_to_unknown_peer_does_nothing (c : ChatClient) (target message : string) :
  peer_connections c !! target = None →
  peer_info c !! target = None →
  send_direct_message json_dumps net c target message = c.
Proof.
  intros Hconn Hinfo. unfold send_direct_message, _connect_to_peer.
  by rewrite Hconn, Hinfo.
Qed.

Lemma connect_to_peer_keeps_connections (c : ChatClient) (target : string) :
  peer_connections c !! target = None →
  peer_connections c ⊆ peer_connections (_connect_to_peer net c target).1.
Proof.
  intros Hnone. unfold _connect_to_peer. destruct (peer_info c !! target) as [peer|]; [|done].
  destruct (net_connect net target (info_ip peer) (info_port peer)); [|done].
  by apply insert_subseteq.
Qed.

Lemma broadcast_to_keeps_connections (payload : string) (c : ChatClient) (n : nat)
    (target : string) :
  peer_connections c ⊆ peer_connections (broadcast_to net payload (c, n) target).1.
Proof.
  unfold broadcast_to. destruct (peer_connections c !! target) as [conn|] eqn:Hconn.
  - simpl. by destruct (net_sendall net target conn payload).
  - pose proof (connect_to_peer_keeps_connections c target Hconn) as Hkeep.
    destruct (_connect_to_peer net c target) as [c1 [conn|]]; simpl in *; [|done].
    by destruct (net_sendall net target conn payload).
Qed.

Lemma broadcast_loop_keeps_connections (payload : string) (l : list string)
    (c : ChatClient) (n : nat) :
  peer_connections c ⊆ peer_connections (foldl (broadcast_to net payload) (c, n) l).1.
Proof.
  revert c n. induction l as [|k l IH]; intros c n; cbn [foldl]; [done|].
  pose proof (broadcast_to_keeps_connections payload c n k) as Hstep.
  destruct (broadcast_to net payload (c, n) k) as [c1 n1]. simpl in Hstep.
  etrans; [exact Hstep | apply IH].
Qed.

(** X20. Sending never closes or replaces a cached connection: after a
    direct message or a broadcast, whether the sends succeeded or
    failed, every peer that had a connection still has the same one. *)
Theorem connections_are_kept (c : ChatClient) (target message : string) :
  peer_connections c ⊆ peer_connections (send_direct_message json_dumps net c target message)
  ∧ peer_connections c ⊆ peer_connections (broadcast_message json_dumps net c message).1.
Proof.
  split; [|apply broadcast_loop_keeps_connections].
  unfold send_direct_message.
  destruct (peer_connections c !! target) as [conn|] eqn:Hconn; [done|].
  pose proof (connect_to_peer_keeps_connections c target Hconn) as Hkeep.
  by destruct (_connect_to_peer net c target) as [c1 [conn|]].
Qed.

(** X21. A connection is opened once. When the first direct message to a
    peer has to connect and the connect succeeds, the socket is cached,
    and the next direct message to that peer makes one call on the
    network: a send on that socket, with no second connect. *)
Theorem connection_is_opened_once
  (c : ChatClient) (target first second : string) (peer : PeerInfo) (sock : Socket) :
  peer_connections c !! target = None →
  peer_info c !! target = Some peer →
  net_connect net target (info_ip peer) (info_port peer) = Ok sock →
  let c1 := send_direct_message json_dumps net c target first in
  let c2 := send_direct_message json_dumps net c1 target second in
  peer_connections c1 !! target = Some sock
  ∧ net_calls c1
    = (net_calls c
       ++ [Connect target (info_ip peer, info_port peer) (Ok sock);
           Sendall target sock (json_dumps (direct_envelope c first))
             (net_sendall net target sock (json_dumps (direct_envelope c first)))])%list
  ∧ net_calls c2
    = (net_calls c1
       ++ [Sendall target sock (json_dumps (direct_envelope c second))
             (net_sendall net target sock (json_dumps (direct_envelope c second)))])%list
  ∧ peer_connections c2 = peer_connections c1.
Proof.
  intros Hconn Hinfo Hdial c1 c2.
  assert (Hc1 : c1 = record_call
                  (set_peer_connections
                     (record_call c (Connect target (info_ip peer, info_port peer) (Ok sock)))
                     (<[target := sock]> (peer_connections c)))
                  (Sendall target sock (json_dumps (direct_envelope c first))
                     (net_sendall net target sock (json_dumps (direct_envelope c first))))).
  { subst c1. unfold send_direct_message, _connect_to_peer.
    by rewrite Hconn, Hinfo, Hdial. }
  assert (Hcached : peer_connections c1 !! target = Some sock).
  { rewrite Hc1. simpl. apply lookup_insert_eq. }
  split; [exact Hcached|]. split.
  { rewrite Hc1. simpl. by rewrite <- app_assoc. }
  subst c2. unfold send_direct_message. rewrite Hcached. simpl.
  split; [|done]. by rewrite Hc1.
Qed.

End Outbound.

Lemma connection_is_opened_once_witness :
  let c1 := ChatClient.send_direct_message content_dumps flaky alice "bob" "one" in
  let c2 := ChatClient.send_direct_message content_dumps flaky c1 "bob" "two" in
  peer_connections c1 !! "bob" = Some (mkSocket 9)
  ∧ net_calls c1
    = (net_calls alice
       ++ [Connect "bob" ("10.0.0.2", 6002%Z) (Ok (mkSocket 9));
           Sendall "bob" (mkSocket 9) (content_dumps (direct_envelope alice "one"))
             (net_sendall flaky "bob" (mkSocket 9)
                (content_dumps (direct_envelope alice "one")))])%list
  ∧ net_calls c2
    = (net_calls c1
       ++ [Sendall "bob" (mkSocket 9) (content_dumps (direct_envelope alice "two"))
             (net_sendall flaky "bob" (mkSocket 9)
                (content_dumps (direct_envelope alice "two")))])%list
  ∧ peer_connections c2 = peer_connections c1.
Proof.
  apply (connection_is_opened_once content_dumps flaky alice "bob" "one" "two"
           (mkPeerInfo "10.0.0.2" 6002) (mkSocket 9)); reflexivity.
Defined.

Lemma send_to_unknown_peer_does_nothing_witness :
  ChatClient.send_direct_message content_dumps flaky alice "erin" "hi" = alice.
Proof.
  apply (send_to_unknown_peer_does_nothing content_dumps flaky alice "erin" "hi");
    reflexivity.
Defined.

(** * Invariants of the client state *)

Section ClientInvariants.

Import ChatClient.

Variable json_loads : string → result json.
Variable json_dumps : json → string.
Variable net : Network.

(** What [_process_peer_message] does to the history: nothing, or one
    chat message stamped [now] at its end. *)
Lemma process_peer_message_history (c : ChatClient) (message : string) (now : Z) :
  let c' := _process_peer_message json_loads c message now in
  net_calls c' = net_calls c
  ∧ (messages c' = messages c
     ∨ ∃ m, messages c' = (messages c ++ [m])%list ∧ chat_message m ∧ msg_time m = now).
Proof.
  unfold _process_peer_message.
  destruct (json_loads message) as [v|e]; simpl; [|by split; [|left]].
  destruct v; simpl; try (by split; [|left]).
  destruct (json_eq_str (dict_get "type" fields) "direct").
  { split; [done|]. right. eexists. split; [reflexivity|]. split; [by left | done]. }
  destruct (json_eq_str (dict_get "type" fields) "broadcast"); [|by split; [|left]].
  split; [done|]. right. eexists. split; [reflexivity|]. split; [by right | done].
Qed.

Lemma update_peer_list_frame (c : ChatClient) (exchange : result Response) :
  let c' := _update_peer_list c exchange in
  peer_connections c' = peer_connections c ∧ messages c' = messages c
  ∧ net_calls c' = net_calls c.
Proof.
  unfold _update_peer_list. destruct exchange as [reply|e]; simpl; [|done].
  by destruct (String.eqb (status reply) "success").
Qed.

Lemma connect_to_peer_messages (c : ChatClient) (target : string) :
  messages (_connect_to_peer net c target).1 = messages c.
Proof.
  unfold _connect_to_peer. destruct (peer_info c !! target) as [peer|]; [|done].
  by destruct (net_connect net target (info_ip peer) (info_port peer)).
Qed.

Lemma send_direct_message_messages (c : ChatClient) (target message : string) :
  messages (send_direct_message json_dumps net c target message) = messages c.
Proof.
  unfold send_direct_message. destruct (peer_connections c !! target) as [conn|]; [done|].
  pose proof (connect_to_peer_messages c target) as Hm.
  by destruct (_connect_to_peer net c target) as [c1 [conn|]].
Qed.

Lemma broadcast_to_messages (payload : string) (st : ChatClient * nat) (target : string) :
  messages (broadcast_to net payload st target).1 = messages st.1.
Proof.
  destruct st as [c n]. unfold broadcast_to.
  destruct (peer_connections c !! target) as [conn|].
  - simpl. by destruct (net_sendall net target conn payload).
  - pose proof (connect_to_peer_messages c target) as Hm.
    destruct (_connect_to_peer net c target) as [c1 [conn|]]; simpl in *; [|done].
    by destruct (net_sendall net target conn payload).
Qed.

Lemma broadcast_loop_messages (payload : string) (l : list string) (st : ChatClient * nat) :
  messages (foldl (broadcast_to net payload) st l).1 = messages st.1.
Proof.
  revert st. induction l as [|k l IH]; intros st; cbn [foldl]; [done|].
  rewrite IH. apply broadcast_to_messages.
Qed.

(** X22. The history only ever holds chat messages: in every state a client
    can be in, each stored message has type [direct] or [broadcast]. *)
Theorem history_holds_chat_messages_only (c : ChatClient) :
  Reachable json_loads json_dumps net c → Forall chat_message (messages c).
Proof.
  induction 1 as [pid lport|c exchange _ IH|c message now _ IH|c target message _ IH
                  |c message _ IH].
  - constructor.
  - by destruct (update_peer_list_frame c exchange) as (_ & -> & _).
  - destruct (process_peer_message_history c message now) as (_ & [->|(m & -> & Hm & _)]);
      [done|]. apply Forall_app. split; [done | by constructor].
  - by rewrite send_direct_message_messages.
  - unfold broadcast_message. by rewrite broadcast_loop_messages.
Qed.

Lemma connect_to_peer_known (c : ChatClient) (target k : string) :
  is_Some (peer_connections (_connect_to_peer net c target).1 !! k) →
  is_Some (peer_connections c !! k) ∨ is_Some (peer_info c !! k).
Proof.
  unfold _connect_to_peer. destruct (peer_info c !! target) as [peer|] eqn:Hinfo; [|by left].
  destruct (net_connect net target (info_ip peer) (info_port peer)); [|by left].
  simpl. destruct (decide (target = k)) as [<-|Hne]; [by right; eauto|].
  rewrite lookup_insert_ne by done. by left.
Qed.

Lemma broadcast_to_known (payload : string) (c : ChatClient) (n : nat) (target k : string) :
  is_Some (peer_connections (broadcast_to net payload (c, n) target).1 !! k) →
  is_Some (peer_connections c !! k) ∨ is_Some (peer_info c !! k).
Proof.
  unfold broadcast_to. destruct (peer_connections c !! target) as [conn|].
  - simpl. destruct (net_sendall net target conn payload); by left.
  - pose proof (connect_to_peer_known c target k) as Hk.
    destruct (_connect_to_peer net c target) as [c1 [conn|]]; simpl in *; [|done].
    by destruct (net_sendall net target conn payload).
Qed.

Lemma broadcast_loop_known (payload : string) (l : list string) (c : ChatClient) (n : nat)
    (k : string) :
  is_Some (peer_connections (foldl (broadcast_to net payload) (c, n) l).1 !! k) →
  is_Some (peer_connections c !! k) ∨ is_Some (peer_info c !! k).
Proof.
  revert c n. induction l as [|x l IH]; intros c n; cbn [foldl]; [by left|].
  pose proof (broadcast_to_known payload c n x k) as Hstep.
  pose proof (broadcast_to_step net payload c n x) as (_ & Hinfo & _).
  destruct (broadcast_to net payload (c, n) x) as [c1 n1]. simpl in *.
  intros Hk. destruct (IH c1 n1 Hk) as [Hc|Hi]; [by apply Hstep|].
  right. by rewrite <- Hinfo.
Qed.

(** X23. Connections are held only to peers of the cache: in every state a
    client can be in, a peer with a cached connection has a cache entry
    (so a peer shown as connected by [/peers] is one of those listed). *)
Theorem connections_are_to_cached_peers (c : ChatClient) (k : string) :
  Reachable json_loads json_dumps net c →
  is_Some (peer_connections c !! k) → is_Some (peer_info c !! k).
Proof.
  induction 1 as [pid lport|c exchange _ IH|c message now _ IH|c target message _ IH
                  |c message _ IH].
  - simpl. rewrite lookup_empty. by intros [? ?].
  - destruct (update_peer_list_frame c exchange) as (-> & _ & _). intros Hk.
    destruct (update_peer_list_cases c exchange) as [->|(reply & _ & ->)]; [by apply IH|].
    by apply store_peers_keeps, IH.
  - destruct (process_peer_message_frame json_loads c message now) as (_ & -> & ->).
    exact IH.
  - destruct (send_direct_message_frame json_dumps net c target message) as (_ & ->).
    unfold send_direct_message.
    destruct (peer_connections c !! target) as [conn|] eqn:Hconn; [exact IH|].
    pose proof (connect_to_peer_known c target k) as Hk.
    destruct (_connect_to_peer net c target) as [c1 [conn|]]; simpl in *;
      intros Hc; (destruct (Hk Hc) as [?|?]; [by apply IH | done]).
  - pose proof (broadcast_loop net (json_dumps (broadcast_envelope c message))
                  (map_to_list (peer_info c)).*1 c 0%nat (NoDup_fst_map_to_list _))
      as (_ & Hinfo & _).
    unfold broadcast_message. unfold broadcast_envelope in Hinfo. rewrite Hinfo.
    intros Hk. apply broadcast_loop_known in Hk as [?|?]; [by apply IH | done].
Qed.

End ClientInvariants.

Lemma history_holds_chat_messages_only_witness :
  Forall chat_message
    (messages (ChatClient._process_peer_message table_loads
                 (ChatClient._process_peer_message table_loads
                    (ChatClient.init "alice" 6001) "hello" 10) "ping" 20)).
Proof.
  apply (history_holds_chat_messages_only table_loads content_dumps flaky).
  do 2 apply reach_inbound. apply reach_init.
Defined.

Lemma connections_are_to_cached_peers_witness :
  is_Some (peer_info
             (ChatClient.send_direct_message content_dumps flaky
                (ChatClient._update_peer_list (ChatClient.init "alice" 6001)
                   (Ok (PeerTracker._handle_get_peers two_peers []).2))
                "bob" "hi") !! "bob").
Proof.
  apply (connections_are_to_cached_peers table_loads content_dumps flaky).
  - apply reach_direct, reach_refresh, reach_init.
  - exists (mkSocket 9). vm_compute. reflexivity.
Defined.

(** * From sender to receiver *)

Section Delivery.

Import ChatClient.

Variable json_loads : string → result json.
Variable json_dumps : json → string.
Variable net : Network.

Lemma connect_to_peer_calls (payload : string) (c : ChatClient) (target : string) :
  ∃ calls, net_calls (_connect_to_peer net c target).1 = (net_calls c ++ calls)%list
           ∧ Forall (sends_only payload) calls.
Proof.
  unfold _connect_to_peer. destruct (peer_info c !! target) as [peer|].
  - destruct (net_connect net target (info_ip peer) (info_port peer));
      (eexists [_]; split; [reflexivity | by repeat constructor]).
  - exists []. split; [by rewrite app_nil_r | constructor].
Qed.

Lemma broadcast_to_calls (payload : string) (c : ChatClient) (n : nat) (target : string) :
  ∃ calls, net_calls (broadcast_to net payload (c, n) target).1 = (net_calls c ++ calls)%list
           ∧ Forall (sends_only payload) calls.
Proof.
  unfold broadcast_to. destruct (peer_connections c !! target) as [conn|].
  - simpl. destruct (net_sendall net target conn payload) eqn:E; simpl;
      (eexists [_]; split; [reflexivity | by repeat constructor]).
  - destruct (connect_to_peer_calls payload c target) as (calls & Hcalls & Hsends).
    destruct (_connect_to_peer net c target) as [c1 [conn|]]; simpl in *; [|by eauto].
    destruct (net_sendall net target conn payload) eqn:E; simpl;
      (eexists (calls ++ [_])%list; split;
       [by rewrite Hcalls, <- app_assoc
       |apply Forall_app; split; [done | by repeat constructor]]).
Qed.

Lemma broadcast_loop_calls (payload : string) (l : list string) (c : ChatClient) (n : nat) :
  ∃ calls, net_calls (foldl (broadcast_to net payload) (c, n) l).1
           = (net_calls c ++ calls)%list
           ∧ Forall (sends_only payload) calls.
Proof.
  revert c n. induction l as [|k l IH]; intros c n; cbn [foldl].
  - exists []. split; [by rewrite app_nil_r | constructor].
  - destruct (broadcast_to_calls payload c n k) as (calls1 & Hcalls1 & Hsends1).
    destruct (broadcast_to net payload (c, n) k) as [c1 n1]. simpl in *.
    destruct (IH c1 n1) as (calls & Hcalls & Hsends).
    exists (calls1 ++ calls)%list. split; [by rewrite Hcalls, Hcalls1, app_assoc|].
    by apply Forall_app.
Qed.

(** What [_process_peer_message] does with an envelope of the client's
    own making, once decoded. *)
Lemma process_envelope (receiver : ChatClient) (payload kind sender content : string)
    (now : Z) :
  json_loads payload
  = Ok (JObject [("type", JString kind); ("from", JString sender);
                 ("content", JString content)]) →
  kind = "direct" ∨ kind = "broadcast" →
  _process_peer_message json_loads receiver payload now
  = append_message receiver (mkMessage kind (JString sender) (JString content) now).
Proof.
  intros Hloads [-> | ->]; unfold _process_peer_message; by rewrite Hloads.
Qed.

(** X24. A direct message arrives as it was sent. Whatever
    [send_direct_message] puts on the network is the serialised
    envelope, and when [json.loads] reads that envelope back, the
    receiver's [_process_peer_message] appends one message of type
    [direct], from the sender's id, with the text sent. *)
Theorem direct_message_is_delivered
  (sender receiver : ChatClient) (target message : string) (now : Z) :
  let payload := json_dumps (direct_envelope sender message) in
  json_loads payload = Ok (direct_envelope sender message) →
  (∃ calls, net_calls (send_direct_message json_dumps net sender target message)
            = (net_calls sender ++ calls)%list
            ∧ Forall (sends_only payload) calls)
  ∧ _process_peer_message json_loads receiver payload now
    = append_message receiver
        (mkMessage "direct" (JString (peer_id sender)) (JString message) now).
Proof.
  intros payload Hloads. split; [|by apply process_envelope; [|left]].
  unfold send_direct_message. destruct (peer_connections sender !! target) as [conn|].
  - simpl. eexists [_]. split; [reflexivity | by repeat constructor].
  - destruct (connect_to_peer_calls payload sender target) as (calls & Hcalls & Hsends).
    pose proof (connect_to_peer_frame net sender target) as [Hid _].
    destruct (_connect_to_peer net sender target) as [c1 [conn|]]; simpl in *; [|by eauto].
    exists (calls ++ [Sendall target conn payload (net_sendall net target conn payload)])%list.
    split.
    + rewrite Hcalls, <- app_assoc. subst payload. unfold direct_envelope. by rewrite Hid.
    + apply Forall_app. split; [done | by repeat constructor].
Qed.

(** X25. A broadcast arrives as it was sent: every send of
    [broadcast_message] carries the serialised envelope, and a receiver
    that reads it back appends one message of type [broadcast], from the
    sender's id, with the text sent. *)
Theorem broadcast_is_delivered
  (sender receiver : ChatClient) (message : string) (now : Z) :
  let payload := json_dumps (broadcast_envelope sender message) in
  json_loads payload = Ok (broadcast_envelope sender message) →
  (∃ calls, net_calls (broadcast_message json_dumps net sender message).1
            = (net_calls sender ++ calls)%list
            ∧ Forall (sends_only payload) calls)
  ∧ _process_peer_message json_loads receiver payload now
    = append_message receiver
        (mkMessage "broadcast" (JString (peer_id sender)) (JString message) now).
Proof.
  intros payload Hloads. split; [|by apply process_envelope; [|right]].
  apply broadcast_loop_calls.
Qed.

End Delivery.

Lemma direct_message_is_delivered_witness :
  (∃ calls, net_calls (ChatClient.send_direct_message content_dumps flaky alice "bob" "hi")
            = (net_calls alice ++ calls)%list
            ∧ Forall (sends_only (content_dumps (direct_envelope alice "hi"))) calls)
  ∧ ChatClient._process_peer_message alice_direct_loads (ChatClient.init "bob" 6002)
      (content_dumps (direct_envelope alice "hi")) 500
    = ChatClient.append_message (ChatClient.init "bob" 6002)
        (mkMessage "direct" (JString "alice") (JString "hi") 500).
Proof.
  apply (direct_message_is_delivered alice_direct_loads content_dumps flaky alice
           (ChatClient.init "bob" 6002) "bob" "hi" 500).
  reflexivity.
Defined.

Lemma broadcast_is_delivered_witness :
  (∃ calls, net_calls (ChatClient.broadcast_message content_dumps flaky alice "hi").1
            = (net_calls alice ++ calls)%list
            ∧ Forall (sends_only (content_dumps (broadcast_envelope alice "hi"))) calls)
  ∧ ChatClient._process_peer_message alice_broadcast_loads (ChatClient.init "bob" 6002)
      (content_dumps (broadcast_envelope alice "hi")) 500
    = ChatClient.append_message (ChatClient.init "bob" 6002)
        (mkMessage "broadcast" (JString "alice") (JString "hi") 500).
Proof.
  apply (broadcast_is_delivered alice_broadcast_loads content_dumps flaky alice
           (ChatClient.init "bob" 6002) "hi" 500).
  reflexivity.
Defined.

(** * Inbound connections *)

Section InboundConnections.

Import ChatClient.

Variable json_loads : string → result json.

(** X26. An inbound connection can only add chat messages to the end of the
    history, at most one for each payload read before the stream ends;
    it changes neither the cache nor the outbound connections, and makes
    no call on the network. *)
Theorem inbound_connection_extends_history (c : ChatClient) (reads : list Recv) :
  let c' := _handle_peer_connection json_loads c reads in
  (∃ new, messages c' = (messages c ++ new)%list
          ∧ (length new ≤ length (processed reads))%nat
          ∧ Forall chat_message new)
  ∧ peer_id c' = peer_id c
  ∧ peer_info c' = peer_info c
  ∧ peer_connections c' = peer_connections c
  ∧ net_calls c' = net_calls c.
Proof.
  revert c. induction reads as [|r reads IH]; intros c; cbn [_handle_peer_connection].
  - split; [|done]. exists []. split; [by rewrite app_nil_r|]. split; [done | constructor].
  - destruct r as [message now| |e].
    + destruct (IH (_process_peer_message json_loads c message now))
        as ((new & Hnew & Hlen & Hchat) & Hid & Hinfo & Hconn & Hcalls).
      destruct (process_peer_message_frame json_loads c message now) as (Hid' & Hinfo' & Hconn').
      destruct (process_peer_message_history json_loads c message now) as (Hcalls' & Hhist).
      cbv zeta in *. split; [|by rewrite Hid, Hinfo, Hconn, Hcalls].
      destruct Hhist as [Hsame|(m & Hm & Hchatm & _)].
      * exists new. split; [by rewrite Hnew, Hsame|]. split; [simpl; lia | done].
      * exists (m :: new). split; [by rewrite Hnew, Hm, <- app_assoc|].
        split; [simpl; lia | by constructor].
    + split; [|done]. exists []. split; [by rewrite app_nil_r|].
      split; [simpl; lia | constructor].
    + split; [|done]. exists []. split; [by rewrite app_nil_r|].
      split; [simpl; lia | constructor].
Qed.

(** X27. Nothing is processed past the end of the stream or past a failed
    read: whatever follows on the connection, the client ends as it does
    when the connection has the reads before it only. *)
Theorem inbound_stops_at_end_of_stream
  (c : ChatClient) (reads more : list Recv) (e : exn) :
  _handle_peer_connection json_loads c (reads ++ RecvClosed :: more)
  = _handle_peer_connection json_loads c reads
  ∧ _handle_peer_connection json_loads c (reads ++ RecvError e :: more)
    = _handle_peer_connection json_loads c reads.
Proof.
  revert c. induction reads as [|r reads IH]; intros c; [done|].
  destruct r as [message now| |e']; [|done|done].
  cbn [app _handle_peer_connection]. apply IH.
Qed.

End InboundConnections.

(** * The command line *)

Section CommandLine.

Lemma lstrip_empty (s : string) : Str.lstrip s = "" ↔ Str.all_space s = true.
Proof.
  induction s as [|a s IH]; [done|]. simpl.
  destruct (Text.is_space a); simpl; [exact IH|]. split; discriminate.
Qed.

Lemma rstrip_empty (s : string) : Str.rstrip s = "" ↔ Str.all_space s = true.
Proof.
  induction s as [|a s IH]; [done|]. cbn [Str.rstrip Str.all_space].
  destruct (Text.is_space a); simpl.
  - destruct (String.eqb_spec (Str.rstrip s) "") as [Hr|Hr].
    + split; [intros _; by apply IH | done].
    + split; [discriminate|]. intros Hs. by apply IH in Hs.
  - split; discriminate.
Qed.

Lemma all_space_lstrip (s : string) :
  Str.all_space (Str.lstrip s) = true → Str.all_space s = true.
Proof.
  induction s as [|a s IH]; [done|]. simpl.
  destruct (Text.is_space a) eqn:Ha; simpl; [exact IH|]. by rewrite Ha.
Qed.

Lemma strip_empty (s : string) : Str.strip s = "" ↔ Str.all_space s = true.
Proof.
  unfold Str.strip. rewrite rstrip_empty. split; [apply all_space_lstrip|].
  intros Hs. apply lstrip_empty in Hs. by rewrite Hs.
Qed.

(** A right-stripped string has no blank tail. *)
Lemma rstrip_no_blank_tail (x u v : string) :
  Str.rstrip x = u ++ v → Str.all_space v = true → v = "".
Proof.
  revert u v. induction x as [|a x IH]; intros u v; cbn [Str.rstrip].
  - destruct u; [intros Hv _; exact (eq_sym Hv) | discriminate].
  - destruct (Text.is_space a && String.eqb (Str.rstrip x) "") eqn:Hcut.
    + destruct u; [intros Hv _; exact (eq_sym Hv) | discriminate].
    + destruct u as [|b u].
      * change ("" ++ v) with v. intros <-. cbn [Str.all_space]. intros Hv.
        apply andb_true_iff in Hv as [Ha Hx]. exfalso.
        assert (Str.rstrip x = "") as Hr by (by apply (IH "" (Str.rstrip x))).
        rewrite Ha, Hr in Hcut. discriminate.
      * rewrite append_cons. intros [= _ Hx]. by apply (IH u).
Qed.

Lemma prefix_split (p s : string) :
  String.prefix p s = true → s = p ++ Str.slice_from (String.length p) s.
Proof.
  revert s. induction p as [|a p IH]; intros s; [done|].
  destruct s as [|b s]; [discriminate|]. cbn [String.prefix].
  destruct (ascii_dec a b) as [->|]; [|discriminate].
  intros Hp. rewrite append_cons. cbn [String.length Str.slice_from]. f_equal. by apply IH.
Qed.

(** X28. A line is skipped exactly when it is empty or blank. *)
Theorem cli_skips_blank_lines_only (line : string) :
  cli_action line = CliSkip ↔ Str.all_space line = true.
Proof.
  rewrite <- strip_empty. unfold cli_action.
  destruct (String.eqb_spec (Str.strip line) "") as [Hs|Hs]; [done|].
  split; [|done].
  repeat match goal with
  | |- context [if ?b then _ else _] => destruct b
  end; discriminate.
Qed.

(** X29. The usage message of [/broadcast] is never shown: a stripped line
    that starts with [/broadcast ] has text after it. The broadcast
    word alone, or followed by blanks only, is an unknown command. *)
Theorem cli_broadcast_usage_is_unreachable (line : string) :
  cli_action line ≠ CliBroadcastUsage
  ∧ (Str.strip line = "/broadcast" → cli_action line = CliUnknown).
Proof.
  split; [|by unfold cli_action; intros ->].
  unfold cli_action.
  destruct (String.eqb (Str.strip line) ""); [discriminate|].
  destruct (Str.startswith (Str.strip line) "/msg ").
  { by destruct (3 <=? length (Str.split_max 2 (Str.strip line)))%nat. }
  destruct (Str.startswith (Str.strip line) "/broadcast ") eqn:Hstart.
  - destruct (String.eqb_spec (Str.strip (Str.slice_from 11 (Str.strip line))) "")
      as [Hblank|_]; [|discriminate].
    exfalso. apply strip_empty in Hblank. apply prefix_split in Hstart.
    change (String.length "/broadcast ") with 11%nat in Hstart.
    assert (Htail : String " "%char (Str.slice_from 11 (Str.strip line)) = "");
      [|discriminate].
    apply (rstrip_no_blank_tail (Str.lstrip line) "/broadcast"); [|by simpl].
    exact Hstart.
  - repeat match goal with
    | |- context [if ?b then _ else _] => destruct b
    end; discriminate.
Qed.

Lemma prefix_app (p s : string) : String.prefix p (p ++ s) = true.
Proof.
  induction p as [|a p IH]; [by destruct s|].
  rewrite append_cons. cbn [String.prefix]. by destruct (ascii_dec a a).
Qed.

Lemma rstrip_app (u v : string) :
  v ≠ "" → Str.rstrip v = v → Str.rstrip (u ++ v) = u ++ v.
Proof.
  intros Hv Hr. induction u as [|a u IH]; [done|].
  rewrite append_cons. cbn [Str.rstrip]. rewrite IH.
  destruct (String.eqb_spec (u ++ v) "") as [Hempty|_]; [|by rewrite andb_false_r].
  destruct u; [done | discriminate].
Qed.

Lemma split_max_over_word (m : nat) (w : string) (cur : list ascii) (s : string) :
  Str.no_space w = true →
  Str.split_max_aux (S m) cur (w ++ s)
  = Str.split_max_aux (S m) (rev (list_ascii_of_string w) ++ cur)%list s.
Proof.
  revert cur. induction w as [|a w IH]; intros cur Hw; [done|].
  simpl in Hw. apply andb_true_iff in Hw as [Ha Hw]. apply negb_true_iff in Ha.
  rewrite append_cons. cbn [list_ascii_of_string rev]. rewrite <- app_assoc.
  rewrite <- IH by done. destruct cur; cbn [Str.split_max_aux]; by rewrite Ha.
Qed.

Lemma split_max_word_then_space (m : nat) (w s : string) :
  Str.is_word w = true →
  Str.split_max_aux (S m) [] (w ++ String " "%char s) = w :: Str.split_max_aux m [] s.
Proof.
  intros Hw. pose proof Hw as [_ Hns]%andb_true_iff.
  rewrite split_max_over_word by done. rewrite app_nil_r.
  destruct (word_chars w Hw) as (a & l & -> & Hback).
  cbn [Str.split_max_aux]. change (Text.is_space " "%char) with true. cbn [pred].
  by rewrite Hback.
Qed.

(** X30. What is typed is what is sent. For a peer id that is one word and a
    text that is not empty and has no blank at either end (blanks inside
    are kept as they are), [/msg id text] leads to a direct message of
    exactly that text to that peer, and [/broadcast text] to a broadcast
    of exactly that text. *)
Theorem cli_sends_what_is_typed (target message : string) :
  Str.is_word target = true →
  message ≠ "" →
  Str.lstrip message = message →
  Str.rstrip message = message →
  cli_action ("/msg " ++ target ++ " " ++ message) = CliMsg target message
  ∧ cli_action ("/broadcast " ++ message) = CliBroadcast message.
Proof.
  intros Htarget Hmessage Hl Hr.
  assert (Hne : String.eqb message "" = false) by (by apply String.eqb_neq).
  split.
  - assert (Hstrip : Str.strip ("/msg " ++ target ++ " " ++ message)
                     = "/msg " ++ target ++ " " ++ message).
    { unfold Str.strip.
      change (Str.lstrip ("/msg " ++ target ++ " " ++ message))
        with ("/msg " ++ target ++ " " ++ message).
      assert (H1 : Str.rstrip (" " ++ message) = " " ++ message)
        by (by apply rstrip_app).
      assert (H2 : Str.rstrip (target ++ " " ++ message) = target ++ " " ++ message)
        by (by apply rstrip_app).
      apply rstrip_app; [|exact H2]. by destruct target. }
    unfold cli_action. rewrite Hstrip.
    change (String.eqb ("/msg " ++ target ++ " " ++ message) "") with false.
    unfold Str.startswith. rewrite prefix_app.
    assert (Hparts : Str.split_max 2 ("/msg " ++ target ++ " " ++ message)
                     = ["/msg"; target; message]).
    { unfold Str.split_max.
      change ("/msg " ++ target ++ " " ++ message)
        with ("/msg" ++ String " "%char (target ++ String " "%char message)).
      rewrite split_max_word_then_space by done.
      rewrite split_max_word_then_space by done.
      destruct message as [|a message]; [done|].
      cbn [Str.split_max_aux]. by rewrite Hl, Hne. }
    by rewrite Hparts.
  - assert (Hstrip : Str.strip ("/broadcast " ++ message) = "/broadcast " ++ message).
    { unfold Str.strip.
      change (Str.lstrip ("/broadcast " ++ message)) with ("/broadcast " ++ message).
      by rewrite rstrip_app. }
    unfold cli_action. rewrite Hstrip.
    change (String.eqb ("/broadcast " ++ message) "") with false.
    unfold Str.startswith. rewrite prefix_app.
    change (String.prefix "/msg " ("/broadcast " ++ message)) with false.
    change (Str.slice_from 11 ("/broadcast " ++ message)) with message.
    unfold Str.strip. by rewrite Hl, Hr, Hne.
Qed.

Lemma cli_sends_what_is_typed_witness :
  cli_action ("/msg " ++ "bob" ++ " " ++ "see  you at 5") = CliMsg "bob" "see  you at 5"
  ∧ cli_action ("/broadcast " ++ "see  you at 5") = CliBroadcast "see  you at 5".
Proof.
  apply (cli_sends_what_is_typed "bob" "see  you at 5"); [reflexivity | discriminate | ..];
    reflexivity.
Defined.

(** A [/msg] with a peer id and no text shows the usage; other words
    are unknown commands, [/help] among them. *)
Example cli_examples :
  cli_action "/msg bob" = CliMsgUsage ∧ cli_action "/help" = CliUnknown
  ∧ cli_action " /peers " = CliPeers ∧ cli_action "/quit" = CliQuit
  ∧ cli_action "/refresh" = CliRefresh ∧ cli_action "/history" = CliHistory.
Proof. repeat split. Qed.

End CommandLine.
